(** * The matchmaking store of the BAR lobby (renderer/store/matchmaking.store.ts)

    A shallow embedding of the store, of its event handlers and commands, of
    the readiness checks and of the download orchestrator, followed by the
    properties of the specification that were checked against it.

    Modelling choices:
    - JavaScript numbers that carry a download progress are IEEE 754 binary64
      values and are modelled by Rocq's primitive floats (same format, same
      rounding to nearest even); counters and ports are modelled by [Z].
    - Objects used as maps are [gmap]s keyed by strings; the properties that a
      JavaScript object inherits from its prototype are not modelled.
    - Asynchronous functions are cut at their [await]s: the part that runs
      before the [await] is a function on the machine state that leaves a
      suspended function behind, and the part that runs after it is executed
      by a later step of the event loop, when the awaited promise settles.
      Between two steps any other handler may run, as in the renderer.
    - [initializeMatchmakingStore] only registers the event handlers and
      fetches the list; the model starts with the handlers registered. *)

From Stdlib Require Import PrimFloat ZArith.
From stdpp Require Import gmap strings list.

Set Warnings "-inexact-float".

Open Scope string_scope.
Open Scope list_scope.

(** ** Data model *)

(** export enum MatchmakingStatus *)
Inductive MatchmakingStatus :=
| Idle
| JoinRequested
| Searching
| MatchFound
| MatchAccepted.

#[global] Instance MatchmakingStatus_eq_dec : EqDecision MatchmakingStatus.
Proof. solve_decision. Defined.

(** An entry of [MatchmakingListOkResponseData["playlists"]]; only the fields
    the store reads are kept. *)
Module Playlist.
Record Map := { mapName : string }.
Record Engine := { version : string }.
Record Game := { springName : string }.
Record t := {
  id : string;
  name : string;
  maps : list Map;
  engines : list Engine;
  games : list Game;
}.
End Playlist.

(** [PrivateBattle] of the protocol; [engine.version], [game.springName] and
    [map.springName] are flattened into one record. *)
Module PrivateBattle.
Record t := {
  username : string;
  password : string;
  ip : string;
  port : Z;
  engine_version : string;
  game_springName : string;
  map_springName : string;
}.
End PrivateBattle.

(** [DownloadInfo] of the main process: the two fields the listeners read. *)
Module DownloadInfo.
Record t := { name : string; progress : float }.
End DownloadInfo.

(** The [downloadProgress] object of the store. *)
Module Progress.
Record t := { map : float; engine : float; game : float }.
End Progress.

(** The value type of [downloadsRequired]. *)
Record DownloadsRequired := {
  mapsNeeded : bool;
  engineNeeded : bool;
  gameNeeded : bool;
  engineVersion : string;
  gameVersion : string;
}.

(** [matchmakingStore] *)
Record Store := {
  isInitialized : bool;
  isDrawerOpen : bool;
  status : MatchmakingStatus;
  errorMessage : option string;
  selectedQueue : string;
  playlists : list Playlist.t;
  isLoadingQueues : bool;
  queueError : option string;
  playersReady : Z;
  playersQueued : Z;
  downloadsRequired : gmap string DownloadsRequired;
  currentBattle : option PrivateBattle.t;
  isDownloadingContent : bool;
  downloadProgress : Progress.t;
}.

Definition noProgress : Progress.t :=
  {| Progress.map := 0; Progress.engine := 0; Progress.game := 0 |}.

(** The initial value passed to [reactive]. *)
Definition initialStore : Store := {|
  isInitialized := false;
  isDrawerOpen := false;
  status := Idle;
  errorMessage := None;
  selectedQueue := "1v1";
  playlists := [];
  isLoadingQueues := false;
  queueError := None;
  playersReady := 0;
  playersQueued := 0;
  downloadsRequired := ∅;
  currentBattle := None;
  isDownloadingContent := false;
  downloadProgress := noProgress;
|}.

(** Assignments to one field of the store. *)
Definition set_status (v : MatchmakingStatus) (s : Store) : Store :=
  Build_Store (isInitialized s) (isDrawerOpen s) v (errorMessage s)
    (selectedQueue s) (playlists s) (isLoadingQueues s) (queueError s)
    (playersReady s) (playersQueued s) (downloadsRequired s) (currentBattle s)
    (isDownloadingContent s) (downloadProgress s).

Definition set_errorMessage (v : option string) (s : Store) : Store :=
  Build_Store (isInitialized s) (isDrawerOpen s) (status s) v
    (selectedQueue s) (playlists s) (isLoadingQueues s) (queueError s)
    (playersReady s) (playersQueued s) (downloadsRequired s) (currentBattle s)
    (isDownloadingContent s) (downloadProgress s).

Definition set_selectedQueue (v : string) (s : Store) : Store :=
  Build_Store (isInitialized s) (isDrawerOpen s) (status s) (errorMessage s)
    v (playlists s) (isLoadingQueues s) (queueError s)
    (playersReady s) (playersQueued s) (downloadsRequired s) (currentBattle s)
    (isDownloadingContent s) (downloadProgress s).

Definition set_playlists (v : list Playlist.t) (s : Store) : Store :=
  Build_Store (isInitialized s) (isDrawerOpen s) (status s) (errorMessage s)
    (selectedQueue s) v (isLoadingQueues s) (queueError s)
    (playersReady s) (playersQueued s) (downloadsRequired s) (currentBattle s)
    (isDownloadingContent s) (downloadProgress s).

Definition set_isLoadingQueues (v : bool) (s : Store) : Store :=
  Build_Store (isInitialized s) (isDrawerOpen s) (status s) (errorMessage s)
    (selectedQueue s) (playlists s) v (queueError s)
    (playersReady s) (playersQueued s) (downloadsRequired s) (currentBattle s)
    (isDownloadingContent s) (downloadProgress s).

Definition set_queueError (v : option string) (s : Store) : Store :=
  Build_Store (isInitialized s) (isDrawerOpen s) (status s) (errorMessage s)
    (selectedQueue s) (playlists s) (isLoadingQueues s) v
    (playersReady s) (playersQueued s) (downloadsRequired s) (currentBattle s)
    (isDownloadingContent s) (downloadProgress s).

Definition set_playersReady (v : Z) (s : Store) : Store :=
  Build_Store (isInitialized s) (isDrawerOpen s) (status s) (errorMessage s)
    (selectedQueue s) (playlists s) (isLoadingQueues s) (queueError s)
    v (playersQueued s) (downloadsRequired s) (currentBattle s)
    (isDownloadingContent s) (downloadProgress s).

Definition set_playersQueued (v : Z) (s : Store) : Store :=
  Build_Store (isInitialized s) (isDrawerOpen s) (status s) (errorMessage s)
    (selectedQueue s) (playlists s) (isLoadingQueues s) (queueError s)
    (playersReady s) v (downloadsRequired s) (currentBattle s)
    (isDownloadingContent s) (downloadProgress s).

Definition set_downloadsRequired (v : gmap string DownloadsRequired) (s : Store) : Store :=
  Build_Store (isInitialized s) (isDrawerOpen s) (status s) (errorMessage s)
    (selectedQueue s) (playlists s) (isLoadingQueues s) (queueError s)
    (playersReady s) (playersQueued s) v (currentBattle s)
    (isDownloadingContent s) (downloadProgress s).

Definition set_currentBattle (v : option PrivateBattle.t) (s : Store) : Store :=
  Build_Store (isInitialized s) (isDrawerOpen s) (status s) (errorMessage s)
    (selectedQueue s) (playlists s) (isLoadingQueues s) (queueError s)
    (playersReady s) (playersQueued s) (downloadsRequired s) v
    (isDownloadingContent s) (downloadProgress s).

Definition set_isDownloadingContent (v : bool) (s : Store) : Store :=
  Build_Store (isInitialized s) (isDrawerOpen s) (status s) (errorMessage s)
    (selectedQueue s) (playlists s) (isLoadingQueues s) (queueError s)
    (playersReady s) (playersQueued s) (downloadsRequired s) (currentBattle s)
    v (downloadProgress s).

Definition set_downloadProgress (v : Progress.t) (s : Store) : Store :=
  Build_Store (isInitialized s) (isDrawerOpen s) (status s) (errorMessage s)
    (selectedQueue s) (playlists s) (isLoadingQueues s) (queueError s)
    (playersReady s) (playersQueued s) (downloadsRequired s) (currentBattle s)
    (isDownloadingContent s) v.

(** ** The local inventory

    [db.maps], [enginesStore] and [gameStore] belong to other modules; the
    matchmaking store only reads them. *)

Record MapData := { isInstalled : bool }.

Module EngineVersion.
Record t := { id : string }.
End EngineVersion.

Record Inventory := {
  db_maps : gmap string MapData;
  availableEngineVersions : list EngineVersion.t;
  (* a JS Map of which only the keys are read, through [has] *)
  availableGameVersions : gset string;
}.

(** How an awaited promise settles. *)
Inductive Settled (A : Type) :=
| Fulfilled (value : A)
| Rejected.
Arguments Fulfilled {A} value.
Arguments Rejected {A}.

(** [db.maps.bulkGet(keys)]: one row or [undefined] per key, in key order. *)
Definition bulkGet (db : gmap string MapData) (keys : list string) : list (option MapData) :=
  List.map (fun k => db !! k) keys.

(** ** Readiness checks *)

(** The loop [for (const map of dbMaps) if (map == undefined || !map.isInstalled) return true;]
    followed by [return false]. *)
Fixpoint anyMapMissing (dbMaps : list (option MapData)) : bool :=
  match dbMaps with
  | [] => false
  | map :: rest =>
      match map with
      | None => true
      | Some row => if negb (isInstalled row) then true else anyMapMissing rest
      end
  end.

(** [checkIfAnyMapsAreNeeded]; [query] is what [await db.maps.bulkGet] gives,
    a rejection of the query rejects the check. *)
Definition checkIfAnyMapsAreNeeded
    (query : list string -> Settled (list (option MapData)))
    (maps : list Playlist.Map) : Settled bool :=
  if (length maps =? 0)%nat then Fulfilled false
  else
    let queueMaps := List.map Playlist.mapName maps in
    match query queueMaps with
    | Rejected => Rejected
    | Fulfilled dbMaps => Fulfilled (anyMapMissing dbMaps)
    end.

(** [checkIfEngineIsNeeded] *)
Definition checkIfEngineIsNeeded (inv : Inventory) (engines : list Playlist.Engine) : bool :=
  if (length engines =? 0)%nat then false
  else
    let requiredVersions := List.map Playlist.version engines in
    let installedVersions := List.map EngineVersion.id (availableEngineVersions inv) in
    negb (existsb (fun required => bool_decide (required ∈ installedVersions)) requiredVersions).

(** [checkIfGameIsNeeded] *)
Definition checkIfGameIsNeeded (inv : Inventory) (games : list Playlist.Game) : bool :=
  if (length games =? 0)%nat then false
  else
    let requiredGames := List.map Playlist.springName games in
    negb (existsb (fun required => bool_decide (required ∈ availableGameVersions inv)) requiredGames).

(** What "installed locally" means for each kind of asset. *)
Definition mapInstalled (inv : Inventory) (mapName : string) : bool :=
  match db_maps inv !! mapName with
  | Some row => isInstalled row
  | None => false
  end.

Definition engineInstalled (inv : Inventory) (version : string) : bool :=
  bool_decide (version ∈ List.map EngineVersion.id (availableEngineVersions inv)).

Definition gameInstalled (inv : Inventory) (springName : string) : bool :=
  bool_decide (springName ∈ availableGameVersions inv).

(** The database answers with the rows it holds. *)
Definition dbAnswers (inv : Inventory) (keys : list string) : Settled (list (option MapData)) :=
  Fulfilled (bulkGet (db_maps inv) keys).

(** ** The event loop around the store

    Besides the store, a state of the renderer holds what the module has
    asked of its collaborators so far ([calls], oldest first), the timers
    created by [simulateProgress] that are still live, each with the local
    variables of its closure, and the asynchronous functions of the module
    that are suspended at an [await]. *)

Inductive Severity := info | error.

(** The type ["map" | "engine" | "game"]. *)
Inductive Asset := AssetMap | AssetEngine | AssetGame.

Inductive TachyonRequest :=
| MatchmakingList
| MatchmakingQueue (queues : list string)
| MatchmakingCancel
| MatchmakingReady.

Inductive Call :=
| Alert (text : string) (severity : Severity)   (* notificationsApi.alert *)
| Request (request : TachyonRequest)            (* window.tachyon.request *)
| BulkGet (keys : list string)                  (* db.maps.bulkGet *)
| SetInterval
| ClearInterval
| OnDownloadProgress (type : Asset)             (* window.downloads.onDownload...Progress *)
| DownloadMap (springName : string)
| DownloadEngine (version : string)
| DownloadGame (springName : string).

#[global] Instance Severity_eq_dec : EqDecision Severity.
Proof. solve_decision. Defined.
#[global] Instance Asset_eq_dec : EqDecision Asset.
Proof. solve_decision. Defined.
#[global] Instance TachyonRequest_eq_dec : EqDecision TachyonRequest.
Proof. solve_decision. Defined.
#[global] Instance Call_eq_dec : EqDecision Call.
Proof. solve_decision. Defined.

Inductive Awaiting :=
| AwaitQueue      (* sendQueueRequest at [await request("matchmaking/queue")] *)
| AwaitCancel     (* sendCancelRequest at [await request("matchmaking/cancel")] *)
| AwaitReady      (* sendReadyRequest at [await request("matchmaking/ready")] *)
| AwaitList       (* sendListRequest at [await request("matchmaking/list")] *)
| AwaitChecks (running : list Playlist.t) (settled : bool)
    (* sendListRequest at [await Promise.all(...)]: the callbacks that have
       not finished yet; [settled] once [Promise.all] has rejected, after
       which sendListRequest itself has returned and only callbacks remain *)
| AwaitDownload (battle : PrivateBattle.t) (stage : Asset)
    (* downloadBattleContent, real branch, at the [await] of [stage] *).

Record Machine := {
  store : Store;
  inventory : Inventory;
  calls : list Call;
  intervals : list Progress.t;
  awaiting : list Awaiting;
}.

Definition initialMachine (inv : Inventory) : Machine :=
  {| store := initialStore; inventory := inv; calls := []; intervals := []; awaiting := [] |}.

Definition update (f : Store -> Store) (m : Machine) : Machine :=
  Build_Machine (f (store m)) (inventory m) (calls m) (intervals m) (awaiting m).

Definition call (c : Call) (m : Machine) : Machine :=
  Build_Machine (store m) (inventory m) (calls m ++ [c]) (intervals m) (awaiting m).

Definition set_intervals (v : list Progress.t) (m : Machine) : Machine :=
  Build_Machine (store m) (inventory m) (calls m) v (awaiting m).

Definition set_awaiting (v : list Awaiting) (m : Machine) : Machine :=
  Build_Machine (store m) (inventory m) (calls m) (intervals m) v.

(** An asynchronous function reaches its first [await]. *)
Definition suspend (a : Awaiting) (m : Machine) : Machine :=
  set_awaiting (awaiting m ++ [a]) m.

(** The [i]-th suspended function has run to its next [await]. *)
Definition suspendAgain (i : nat) (a : Awaiting) (m : Machine) : Machine :=
  set_awaiting (<[i := a]> (awaiting m)) m.

(** The [i]-th suspended function has returned. *)
Definition finish (i : nat) (m : Machine) : Machine :=
  set_awaiting (delete i (awaiting m)) m.

(** ** Event handlers *)

Definition onQueueUpdateEvent (playersQueued : Z) (m : Machine) : Machine :=
  update (set_playersQueued playersQueued) m.

Definition onLostEvent (m : Machine) : Machine :=
  update (set_status Searching) m.

Definition onFoundUpdateEvent (readyCount : Z) (m : Machine) : Machine :=
  update (set_playersReady readyCount) m.

Definition onCancelledEvent (m : Machine) : Machine :=
  update (set_status Idle) m.

Definition onFoundEvent (m : Machine) : Machine :=
  update (set_status MatchFound) m.

Definition onQueuesJoinedEvent (m : Machine) : Machine :=
  update (set_status Searching) m.

(** ** The download orchestrator *)

(** const testAssetDownload = true; *)
Definition testAssetDownload : bool := true.

(** [Math.min] on two numbers: NaN if either is NaN, and -0 below +0. *)
Definition Math_min (x y : float) : float :=
  if (is_nan x || is_nan y)%bool then nan
  else if (x <? y)%float then x
  else if (y <? x)%float then y
  else if (is_zero x && get_sign x)%bool then x
  else y.

(** [simulateProgress()]: the executor of the promise sets the three local
    variables to 0 and creates the timer. *)
Definition simulateProgress (m : Machine) : Machine :=
  let m := call SetInterval m in
  set_intervals (intervals m ++ [noProgress]) m.

(** What follows [await simulateProgress()] in the [try] and its [finally]. *)
Definition simulatedDownloadResume (m : Machine) : Machine :=
  let m := call (Alert "Battle content downloaded. Ready to launch!" info) m in
  update (set_isDownloadingContent false) m.

(** The callback given to [setInterval], for the [i]-th live timer. When the
    three local variables are 1 it clears the timer and resolves the promise;
    the function awaiting it resumes before any other handler runs, so that
    its continuation is part of the same step. *)
Definition intervalCallback (i : nat) (m : Machine) : option Machine :=
  match intervals m !! i with
  | None => None
  | Some locals =>
      let mapProgress := Math_min (Progress.map locals + 0.08)%float 1%float in
      let engineProgress := Math_min (Progress.engine locals + 0.12)%float 1%float in
      let gameProgress := Math_min (Progress.game locals + 0.06)%float 1%float in
      let locals :=
        {| Progress.map := mapProgress; Progress.engine := engineProgress;
           Progress.game := gameProgress |} in
      let m := update (set_downloadProgress
        {| Progress.map := mapProgress; Progress.engine := engineProgress;
           Progress.game := gameProgress |}) m in
      if ((mapProgress =? 1)%float && (engineProgress =? 1)%float && (gameProgress =? 1)%float)%bool
      then
        let m := call ClearInterval m in
        let m := set_intervals (delete i (intervals m)) m in
        Some (simulatedDownloadResume m)
      else Some (set_intervals (<[i := locals]> (intervals m)) m)
  end.

Definition assetName (type : Asset) (battle : PrivateBattle.t) : string :=
  match type with
  | AssetMap => PrivateBattle.map_springName battle
  | AssetEngine => PrivateBattle.engine_version battle
  | AssetGame => PrivateBattle.game_springName battle
  end.

(** [downloadProgress[type] = v] *)
Definition setProgress (type : Asset) (v : float) (p : Progress.t) : Progress.t :=
  match type with
  | AssetMap => {| Progress.map := v; Progress.engine := Progress.engine p; Progress.game := Progress.game p |}
  | AssetEngine => {| Progress.map := Progress.map p; Progress.engine := v; Progress.game := Progress.game p |}
  | AssetGame => {| Progress.map := Progress.map p; Progress.engine := Progress.engine p; Progress.game := v |}
  end.

Definition getProgress (type : Asset) (p : Progress.t) : float :=
  match type with
  | AssetMap => Progress.map p
  | AssetEngine => Progress.engine p
  | AssetGame => Progress.game p
  end.

(** [createProgressListener(type)] applied to a [DownloadInfo]. *)
Definition createProgressListener (type : Asset) (battle : PrivateBattle.t)
    (downloadInfo : DownloadInfo.t) (s : Store) : Store :=
  if (DownloadInfo.name downloadInfo =? assetName type battle)%string
  then set_downloadProgress
         (setProgress type (DownloadInfo.progress downloadInfo) (downloadProgress s)) s
  else s.

(** [downloadBattleContent], with the constant [testAssetDownload] as a
    parameter so that both branches can be stated. *)
Definition downloadBattleContent_with (testAssetDownload : bool)
    (battle : PrivateBattle.t) (m : Machine) : Machine :=
  let m := update (set_currentBattle (Some battle)) m in
  let m := update (set_isDownloadingContent true) m in
  let m := update (set_downloadProgress noProgress) m in
  if testAssetDownload then simulateProgress m
  else
    (* Real download logic below *)
    let m := call (OnDownloadProgress AssetMap) m in
    let m := call (OnDownloadProgress AssetEngine) m in
    let m := call (OnDownloadProgress AssetGame) m in
    let m := call (DownloadMap (PrivateBattle.map_springName battle)) m in
    suspend (AwaitDownload battle AssetMap) m.

Definition downloadBattleContent : PrivateBattle.t -> Machine -> Machine :=
  downloadBattleContent_with testAssetDownload.

(** The [finally] of the real branch: the three cleanups, then the flag. *)
Definition downloadFinally (i : nat) (m : Machine) : Machine :=
  let m := call (OnDownloadProgress AssetMap) m in
  let m := call (OnDownloadProgress AssetEngine) m in
  let m := call (OnDownloadProgress AssetGame) m in
  let m := update (set_isDownloadingContent false) m in
  finish i m.

(** The real branch resumes after the [await] of [stage]. *)
Definition downloadResume {A} (i : nat) (battle : PrivateBattle.t) (stage : Asset)
    (outcome : Settled A) (m : Machine) : Machine :=
  match outcome with
  | Rejected =>
      let m := call (Alert "Failed to download required content for battle" error) m in
      downloadFinally i m
  | Fulfilled _ =>
      let m := update (fun s => set_downloadProgress (setProgress stage 1%float (downloadProgress s)) s) m in
      match stage with
      | AssetMap =>
          let m := call (DownloadEngine (PrivateBattle.engine_version battle)) m in
          suspendAgain i (AwaitDownload battle AssetEngine) m
      | AssetEngine =>
          let m := call (DownloadGame (PrivateBattle.game_springName battle)) m in
          suspendAgain i (AwaitDownload battle AssetGame) m
      | AssetGame =>
          let m := call (Alert "Battle content downloaded. Ready to launch!" info) m in
          downloadFinally i m
      end
  end.

Definition onUserSelfEvent (currentBattle : option PrivateBattle.t) (m : Machine) : Machine :=
  match currentBattle with
  | Some battle =>
      if decide (status (store m) = MatchAccepted)
      then downloadBattleContent battle m
      else m
  | None => m
  end.

(** ** Refreshing the playlists *)

(** The part of [sendListRequest] that precedes the first [await]. *)
Definition sendListRequest (m : Machine) : Machine :=
  let m := update (set_isLoadingQueues true) m in
  let m := update (set_queueError None) m in
  let m := call (Request MatchmakingList) m in
  suspend AwaitList m.

(** The [catch] of [sendListRequest]. *)
Definition sendListRequestCatch (m : Machine) : Machine :=
  let m := call (Alert "Tachyon error: matchmaking/list" error) m in
  update (set_queueError (Some "Failed to retrieve available queues")) m.

(** The [finally] of [sendListRequest]. *)
Definition sendListRequestFinally (m : Machine) : Machine :=
  update (set_isLoadingQueues false) m.

(** A callback of [playlists.map(async (queue) => ...)] runs up to its first
    [await]: [checkIfAnyMapsAreNeeded] queries the database unless the
    playlist has no map. *)
Definition startChecks (m : Machine) (queue : Playlist.t) : Machine :=
  if (length (Playlist.maps queue) =? 0)%nat then m
  else call (BulkGet (List.map Playlist.mapName (Playlist.maps queue))) m.

(** [sendListRequest] resumes with the response to "matchmaking/list". *)
Definition sendListRequestResume (i : nat) (response : Settled (list Playlist.t))
    (m : Machine) : Machine :=
  match response with
  | Rejected =>
      finish i (sendListRequestFinally (sendListRequestCatch m))
  | Fulfilled response_data_playlists =>
      let m := update (set_playlists response_data_playlists) m in
      let hasSelectedQueue :=
        existsb (fun playlist => (Playlist.id playlist =? selectedQueue (store m))%string)
                (playlists (store m)) in
      let m :=
        match playlists (store m) with
        | first :: _ =>
            if negb hasSelectedQueue
            then update (set_selectedQueue (Playlist.id first)) m
            else m
        | [] => m
        end in
      let m := update (set_downloadsRequired ∅) m in
      let m := foldl startChecks m (playlists (store m)) in
      match playlists (store m) with
      | [] => finish i (sendListRequestFinally m)   (* Promise.all([]) is fulfilled *)
      | running => suspendAgain i (AwaitChecks running false) m
      end
  end.

(** [queue.engines?.[0]?.version ?? ""] and [queue.games?.[0]?.springName ?? ""] *)
Definition firstEngineVersion (queue : Playlist.t) : string :=
  match Playlist.engines queue with
  | e :: _ => Playlist.version e
  | [] => ""
  end.

Definition firstGameVersion (queue : Playlist.t) : string :=
  match Playlist.games queue with
  | g :: _ => Playlist.springName g
  | [] => ""
  end.

(** The callback of the [j]-th running playlist of the [i]-th suspended
    function finishes. [answered] tells whether the database answered its
    query or the query failed; a playlist without maps made no query. When
    the callback rejects, [Promise.all] rejects (once) and [sendListRequest]
    runs its [catch] and [finally]; the other callbacks keep running. *)
Definition checksDone (i j : nat) (answered : bool) (m : Machine) : option Machine :=
  match awaiting m !! i with
  | Some (AwaitChecks running settled) =>
      match running !! j with
      | None => None
      | Some queue =>
          let query := if answered then dbAnswers (inventory m) else fun _ => Rejected in
          let rest := delete j running in
          match checkIfAnyMapsAreNeeded query (Playlist.maps queue) with
          | Fulfilled mapsNeeded =>
              let engineNeeded := checkIfEngineIsNeeded (inventory m) (Playlist.engines queue) in
              let gameNeeded := checkIfGameIsNeeded (inventory m) (Playlist.games queue) in
              let m := update (fun s => set_downloadsRequired
                (<[Playlist.id queue :=
                    {| mapsNeeded := mapsNeeded;
                       engineNeeded := engineNeeded;
                       gameNeeded := gameNeeded;
                       engineVersion := firstEngineVersion queue;
                       gameVersion := firstGameVersion queue |}]> (downloadsRequired s)) s) m in
              match rest with
              | [] => Some (finish i (if settled then m else sendListRequestFinally m))
              | _ => Some (suspendAgain i (AwaitChecks rest settled) m)
              end
          | Rejected =>
              let m := if settled then m
                       else sendListRequestFinally (sendListRequestCatch m) in
              match rest with
              | [] => Some (finish i m)
              | _ => Some (suspendAgain i (AwaitChecks rest true) m)
              end
          end
      end
  | _ => None
  end.

(** [getPlaylistName] *)
Definition getPlaylistName (id : string) (s : Store) : string :=
  match List.find (fun playlist => (Playlist.id playlist =? id)%string) (playlists s) with
  | Some playlist => if (Playlist.name playlist =? "")%string then id else Playlist.name playlist
  | None => id
  end.

(** ** Commands *)

(** The battle that [sendQueueRequest] passes to [downloadBattleContent]. *)
Definition testBattle : PrivateBattle.t := {|
  PrivateBattle.username := "string";
  PrivateBattle.password := "string";
  PrivateBattle.ip := "string";
  PrivateBattle.port := 0;
  PrivateBattle.engine_version := "";
  PrivateBattle.game_springName := "";
  PrivateBattle.map_springName := "";
|}.

(** [sendQueueRequest] up to its first [await]. *)
Definition sendQueueRequest (m : Machine) : Machine :=
  match downloadsRequired (store m) !! selectedQueue (store m) with
  | None =>
      let m := call (Alert "Bad queue data; refreshing list." error) m in
      sendListRequest m   (* awaited; nothing follows it *)
  | Some _ =>
      (* testing download of battle content before actually joining queue *)
      let m := downloadBattleContent testBattle m in
      let m := update (set_status JoinRequested) m in
      let m := update (set_errorMessage None) m in
      let m := call (Request (MatchmakingQueue [selectedQueue (store m)])) m in
      suspend AwaitQueue m
  end.

Definition sendQueueRequestResume {A} (i : nat) (response : Settled A) (m : Machine) : Machine :=
  match response with
  | Fulfilled _ => finish i (update (set_status Searching) m)
  | Rejected =>
      let m := call (Alert "Tachyon error: matchmaking/queue" error) m in
      let m := update (set_errorMessage (Some "Error with matchmaking/queue")) m in
      let m := update (set_status Idle) m in
      finish i m
  end.

(** [sendCancelRequest] up to its [await]. *)
Definition sendCancelRequest (m : Machine) : Machine :=
  let m := update (set_status Idle) m in
  let m := call (Request MatchmakingCancel) m in
  suspend AwaitCancel m.

Definition sendCancelRequestResume {A} (i : nat) (response : Settled A) (m : Machine) : Machine :=
  match response with
  | Fulfilled _ => finish i m
  | Rejected =>
      let m := call (Alert "Tachyon error: matchmaking/cancel" error) m in
      let m := update (set_errorMessage (Some "Error with matchmaking/cancel")) m in
      finish i m
  end.

(** [sendReadyRequest] up to its [await]. *)
Definition sendReadyRequest (m : Machine) : Machine :=
  let m := update (set_status MatchAccepted) m in
  let m := call (Request MatchmakingReady) m in
  suspend AwaitReady m.

Definition sendReadyRequestResume {A} (i : nat) (response : Settled A) (m : Machine) : Machine :=
  match response with
  | Fulfilled _ => finish i m
  | Rejected =>
      let m := update (set_status Idle) m in
      let m := call (Alert "Tachyon error: matchmaking/ready" error) m in
      let m := update (set_errorMessage (Some "Error with matchmaking/ready")) m in
      finish i m
  end.

(** ** Steps of the event loop

    The events are those whose handlers [initializeMatchmakingStore]
    registers, the commands are the four functions exported as
    [matchmaking]. The other steps resume something suspended: a promise
    awaited by the [i]-th suspended function settles, a playlist callback
    finishes, a timer fires, or a progress event of the main process reaches
    the listeners of a real download. *)
Inductive Label :=
| QueueUpdateEvent (playersQueued : Z)
| LostEvent
| FoundUpdateEvent (readyCount : Z)
| CancelledEvent
| FoundEvent
| QueuesJoinedEvent
| UserSelfEvent (currentBattle : option PrivateBattle.t)
| SendQueueRequest
| SendCancelRequest
| SendReadyRequest
| SendListRequest
| Settle (i : nat) (response : Settled (list Playlist.t))
| ChecksDone (i j : nat) (answered : bool)
| IntervalFires (i : nat)
| DownloadProgressEvent (i : nat) (type : Asset) (downloadInfo : DownloadInfo.t).

Definition settle (i : nat) (response : Settled (list Playlist.t)) (m : Machine) : option Machine :=
  match awaiting m !! i with
  | Some AwaitQueue => Some (sendQueueRequestResume i response m)
  | Some AwaitCancel => Some (sendCancelRequestResume i response m)
  | Some AwaitReady => Some (sendReadyRequestResume i response m)
  | Some AwaitList => Some (sendListRequestResume i response m)
  | Some (AwaitDownload battle stage) => Some (downloadResume i battle stage response m)
  | Some (AwaitChecks _ _) => None
  | None => None
  end.

(** A progress event of the main process reaches the listener that the
    [i]-th suspended function registered; a listener is taken to live as long
    as the download that registered it. *)
Definition downloadProgressEvent (i : nat) (type : Asset) (downloadInfo : DownloadInfo.t)
    (m : Machine) : option Machine :=
  match awaiting m !! i with
  | Some (AwaitDownload battle _) =>
      Some (update (createProgressListener type battle downloadInfo) m)
  | _ => None
  end.

Definition step (l : Label) (m : Machine) : option Machine :=
  match l with
  | QueueUpdateEvent playersQueued => Some (onQueueUpdateEvent playersQueued m)
  | LostEvent => Some (onLostEvent m)
  | FoundUpdateEvent readyCount => Some (onFoundUpdateEvent readyCount m)
  | CancelledEvent => Some (onCancelledEvent m)
  | FoundEvent => Some (onFoundEvent m)
  | QueuesJoinedEvent => Some (onQueuesJoinedEvent m)
  | UserSelfEvent currentBattle => Some (onUserSelfEvent currentBattle m)
  | SendQueueRequest => Some (sendQueueRequest m)
  | SendCancelRequest => Some (sendCancelRequest m)
  | SendReadyRequest => Some (sendReadyRequest m)
  | SendListRequest => Some (sendListRequest m)
  | Settle i response => settle i response m
  | ChecksDone i j answered => checksDone i j answered m
  | IntervalFires i => intervalCallback i m
  | DownloadProgressEvent i type downloadInfo => downloadProgressEvent i type downloadInfo m
  end.

Fixpoint run (ls : list Label) (m : Machine) : option Machine :=
  match ls with
  | [] => Some m
  | l :: ls =>
      match step l m with
      | Some m => run ls m
      | None => None
      end
  end.

(** The number of timers created so far: one per simulated download. *)
Definition timersCreated (m : Machine) : nat :=
  length (filter (fun c => c = SetInterval) (calls m)).

(** ** Sample data used by the examples below *)

(** An inventory with map A, engine e1 and game g1 installed. *)
Definition sampleInventory : Inventory := {|
  db_maps := <["A" := {| isInstalled := true |}]> ∅;
  availableEngineVersions := [ {| EngineVersion.id := "e1" |} ];
  availableGameVersions := {[ "g1" ]};
|}.

(** A battle on map M with engine E and game G. *)
Definition battleMEG : PrivateBattle.t := {|
  PrivateBattle.username := "player";
  PrivateBattle.password := "secret";
  PrivateBattle.ip := "127.0.0.1";
  PrivateBattle.port := 8452;
  PrivateBattle.engine_version := "E";
  PrivateBattle.game_springName := "G";
  PrivateBattle.map_springName := "M";
|}.

Definition mapA : Playlist.Map := {| Playlist.mapName := "A" |}.
Definition mapB : Playlist.Map := {| Playlist.mapName := "B" |}.


(** Two reports for map M, the second lower than the first. *)
Definition reportHalf : DownloadInfo.t :=
  {| DownloadInfo.name := "M"; DownloadInfo.progress := 0.5 |}.
Definition reportFifth : DownloadInfo.t :=
  {| DownloadInfo.name := "M"; DownloadInfo.progress := 0.2 |}.

(** Two playlists that differ in their map. *)
Definition playlist1v1 : Playlist.t := {|
  Playlist.id := "1v1";
  Playlist.name := "Duel";
  Playlist.maps := [mapA];
  Playlist.engines := [ {| Playlist.version := "e1" |} ];
  Playlist.games := [ {| Playlist.springName := "g1" |} ];
|}.

Definition playlist2v2 : Playlist.t := {|
  Playlist.id := "2v2";
  Playlist.name := "Small team";
  Playlist.maps := [mapB];
  Playlist.engines := [ {| Playlist.version := "e1" |} ];
  Playlist.games := [ {| Playlist.springName := "g1" |} ];
|}.

(** The list is fetched, the player queues for "1v1" (which starts the test
    download, left to complete), a match is found and accepted. *)
Definition acceptedTrace : list Label :=
  [SendListRequest; Settle 0 (Fulfilled [playlist1v1]); ChecksDone 0 0 true;
   SendQueueRequest; Settle 0 (Fulfilled []); QueuesJoinedEvent] ++
  repeat (IntervalFires 0) 17 ++
  [FoundEvent; SendReadyRequest; Settle 0 (Fulfilled [])].

(** ** Auxiliary notions used to state the properties *)

(** One firing of the timer, on the local variables of its closure. *)
Definition simulatedTick (locals : Progress.t) : Progress.t :=
  {| Progress.map := Math_min (Progress.map locals + 0.08)%float 1%float;
     Progress.engine := Math_min (Progress.engine locals + 0.12)%float 1%float;
     Progress.game := Math_min (Progress.game locals + 0.06)%float 1%float |}.

(** The local variables after [n] firings. *)
Definition simulatedProgress (n : nat) : Progress.t := Nat.iter n simulatedTick noProgress.

Definition allComplete (p : Progress.t) : bool :=
  ((Progress.map p =? 1)%float && (Progress.engine p =? 1)%float && (Progress.game p =? 1)%float)%bool.

Definition complete : Progress.t :=
  {| Progress.map := 1; Progress.engine := 1; Progress.game := 1 |}.

(** [p] is at most [q] in each of the three values. *)
Definition progressLe (p q : Progress.t) : bool :=
  ((Progress.map p <=? Progress.map q)%float &&
   (Progress.engine p <=? Progress.engine q)%float &&
   (Progress.game p <=? Progress.game q)%float)%bool.

(** The machine after [n] firings of its [i]-th timer, none of which
    completes the download: the timer holds [p], and so does the store once
    the timer has fired. *)
Definition fired (n i : nat) (p : Progress.t) (m : Machine) : Machine :=
  match n with
  | 0 => m
  | S _ => set_intervals (<[i := p]> (intervals m)) (update (set_downloadProgress p) m)
  end.

(** The calls and the suspended functions of the real download branch. *)
Definition realDownloadCall (c : Call) : bool :=
  match c with
  | OnDownloadProgress _ | DownloadMap _ | DownloadEngine _ | DownloadGame _ => true
  | _ => false
  end.

Definition realDownloadAwait (a : Awaiting) : bool :=
  match a with
  | AwaitDownload _ _ => true
  | _ => false
  end.

Definition simulatedOnly (m : Machine) : Prop :=
  Forall (fun c => realDownloadCall c = false) (calls m) /\
  Forall (fun a => realDownloadAwait a = false) (awaiting m).

(** The assignments [sendListRequest] makes to the store when the list
    arrives: the playlists, the default selection, the cleared records. *)
Definition defaultSelectedQueue (s : Store) : Store :=
  match playlists s with
  | first :: _ =>
      if negb (existsb (fun playlist => (Playlist.id playlist =? selectedQueue s)%string) (playlists s))
      then set_selectedQueue (Playlist.id first) s
      else s
  | [] => s
  end.

Definition refreshStore (response_data_playlists : list Playlist.t) (s : Store) : Store :=
  set_downloadsRequired ∅ (defaultSelectedQueue (set_playlists response_data_playlists s)).

(** The value the store holds for [type] after each of the [reports], given
    in order to the listener that [createProgressListener(type)] returns. *)
Fixpoint storedAfter (type : Asset) (battle : PrivateBattle.t)
    (reports : list DownloadInfo.t) (s : Store) : list float :=
  match reports with
  | [] => []
  | report :: reports =>
      let s := createProgressListener type battle report s in
      getProgress type (downloadProgress s) :: storedAfter type battle reports s
  end.

Fixpoint nondecreasing (values : list float) : bool :=
  match values with
  | a :: (b :: _) as rest => ((a <=? b)%float && nondecreasing rest)%bool
  | _ => true
  end.

(** The store after the listener for [type] has received the [reports]. *)
Fixpoint reportAll (type : Asset) (battle : PrivateBattle.t)
    (reports : list DownloadInfo.t) (s : Store) : Store :=
  match reports with
  | [] => s
  | report :: reports => reportAll type battle reports (createProgressListener type battle report s)
  end.

Definition isFulfilled {A} (outcome : Settled A) : bool :=
  match outcome with
  | Fulfilled _ => true
  | Rejected => false
  end.

(** One real download seen from the event loop: for each asset in turn, the
    progress events of that asset, then the settlement of its download; the
    first rejection ends the download. *)
Fixpoint realDownloadLabels (i : nat)
    (stages : list (Asset * list DownloadInfo.t * Settled (list Playlist.t))) : list Label :=
  match stages with
  | [] => []
  | (type, reports, outcome) :: stages =>
      List.map (DownloadProgressEvent i type) reports ++
      Settle i outcome ::
      (if isFulfilled outcome then realDownloadLabels i stages else [])
  end.

Definition successAlert : Call := Alert "Battle content downloaded. Ready to launch!" info.
Definition failureAlert : Call := Alert "Failed to download required content for battle" error.

(** The ids of a list of playlists. *)
Definition playlistIds (ps : list Playlist.t) : gset string :=
  list_to_set (List.map Playlist.id ps).

(** An order in which the callbacks of [n] running playlists finish: each
    entry names the callback that finishes next, by its position among those
    still running, and tells whether its database query was answered. *)
Fixpoint validSchedule (n : nat) (schedule : list (nat * bool)) : Prop :=
  match schedule with
  | [] => n = 0
  | (j, _) :: schedule => j < n /\ validSchedule (pred n) schedule
  end.

Definition checkLabels (i : nat) (schedule : list (nat * bool)) : list Label :=
  List.map (fun entry => ChecksDone i (fst entry) (snd entry)) schedule.

Definition allAnswered (schedule : list (nat * bool)) : bool :=
  forallb snd schedule.

(** The record that the callback of [queue] writes when the database answers. *)
Definition recordFor (inv : Inventory) (queue : Playlist.t) : DownloadsRequired :=
  {| mapsNeeded := anyMapMissing (bulkGet (db_maps inv) (List.map Playlist.mapName (Playlist.maps queue)));
     engineNeeded := checkIfEngineIsNeeded inv (Playlist.engines queue);
     gameNeeded := checkIfGameIsNeeded inv (Playlist.games queue);
     engineVersion := firstEngineVersion queue;
     gameVersion := firstGameVersion queue |}.
(** ** Initialisation *)

Definition set_isInitialized (v : bool) (s : Store) : Store :=
  Build_Store v (isDrawerOpen s) (status s) (errorMessage s)
    (selectedQueue s) (playlists s) (isLoadingQueues s) (queueError s)
    (playersReady s) (playersQueued s) (downloadsRequired s) (currentBattle s)
    (isDownloadingContent s) (downloadProgress s).

(** The events whose handlers [initializeMatchmakingStore] registers with
    [window.tachyon.onEvent], in the order of the calls. *)
Definition registeredEvents : list string :=
  ["matchmaking/queueUpdate"; "matchmaking/lost"; "matchmaking/foundUpdate";
   "matchmaking/cancelled"; "matchmaking/found"; "matchmaking/queuesJoined";
   "user/self"].

(** [initializeMatchmakingStore] up to its [await], or to its end when it
    does not await: the events it has registered a handler for, and the
    machine. [isConnected] is [tachyonStore.isConnected]. When connected, the
    function is suspended in [sendListRequest] and assigns [isInitialized]
    only once that has returned. *)
Definition initializeMatchmakingStore (isConnected : bool) (m : Machine) : list string * Machine :=
  if isInitialized (store m) then ([], m)
  else if isConnected then (registeredEvents, sendListRequest m)
  else (registeredEvents, update (set_isInitialized true) m).

(** What follows [await sendListRequest()] in [initializeMatchmakingStore]. *)
Definition initializeMatchmakingStoreResume (m : Machine) : Machine :=
  update (set_isInitialized true) m.

(** ** Further notions used to state the properties *)

(** The three values of [p] lie between 0 and 1. *)
Definition inUnit (p : Progress.t) : bool :=
  ((0 <=? Progress.map p)%float && (Progress.map p <=? 1)%float &&
   (0 <=? Progress.engine p)%float && (Progress.engine p <=? 1)%float &&
   (0 <=? Progress.game p)%float && (Progress.game p <=? 1)%float)%bool.

(** How many times the module has made the call [c]. *)
Definition countCall (c : Call) (m : Machine) : nat :=
  length (filter (fun x => x = c) (calls m)).

(** The states that a run of the event loop reaches from the initial state. *)
Definition reachable (inv : Inventory) (m : Machine) : Prop :=
  exists ls, run ls (initialMachine inv) = Some m.

(** Every live timer holds the values of a simulated download that has fired
    at most sixteen times, and the store holds values that some timer has
    written, or zero. *)
Definition timersSound (m : Machine) : Prop :=
  Forall (fun locals => exists k, k <= 16 /\ locals = simulatedProgress k) (intervals m) /\
  exists k, k <= 17 /\ downloadProgress (store m) = simulatedProgress k.

(** Every timer created is live or has been cleared, and a success alert was
    raised for each cleared timer and for nothing else. *)
Definition timersBalanced (m : Machine) : Prop :=
  countCall SetInterval m = length (intervals m) + countCall ClearInterval m /\
  countCall successAlert m = countCall ClearInterval m.

(** The playlist callbacks of the [i]-th suspended function that are still
    running. *)
Definition runningChecks (i : nat) (m : Machine) : list Playlist.t :=
  match awaiting m !! i with
  | Some (AwaitChecks running _) => running
  | _ => []
  end.

(** A third playlist, with the id of [playlist1v1] and no display name. *)
Definition playlistUnnamed : Playlist.t := {|
  Playlist.id := "1v1";
  Playlist.name := "";
  Playlist.maps := [];
  Playlist.engines := [];
  Playlist.games := [];
|}.

(** The sample inventory with map B, engine e2 and game g2 installed too. *)
Definition fullerInventory : Inventory := {|
  db_maps := <["B" := {| isInstalled := true |}]> (db_maps sampleInventory);
  availableEngineVersions := {| EngineVersion.id := "e2" |} :: availableEngineVersions sampleInventory;
  availableGameVersions := {[ "g2" ]} ∪ availableGameVersions sampleInventory;
|}.

(** A call that has nothing to do with the timers of simulated downloads. *)
Definition quietCall (c : Call) : Prop :=
  c <> SetInterval /\ c <> ClearInterval /\ c <> successAlert.

(** From [m] to [m'] the timers and the progress are untouched, and the calls
    made in between are quiet. *)
Definition frame (m m' : Machine) : Prop :=
  intervals m' = intervals m /\
  downloadProgress (store m') = downloadProgress (store m) /\
  exists extra, calls m' = calls m ++ extra /\ Forall quietCall extra.

(** From [m] to [m'] one simulated download was started, and nothing else
    happened to the timers. *)
Definition started (m m' : Machine) : Prop :=
  intervals m' = intervals m ++ [noProgress] /\
  downloadProgress (store m') = noProgress /\
  exists extra, calls m' = calls m ++ SetInterval :: extra /\ Forall quietCall extra.

(** The ready command is accepted, a battle is assigned, and the timer of its
    download fires once. *)
Definition assignedTrace : list Label :=
  [SendReadyRequest; Settle 0 (Fulfilled []); UserSelfEvent (Some battleMEG); IntervalFires 0].


(** The progress of the last of the [reports] that bears [name], if any. *)
Fixpoint lastReported (name : string) (reports : list DownloadInfo.t) : option float :=
  match reports with
  | [] => None
  | report :: reports =>
      match lastReported name reports with
      | Some v => Some v
      | None =>
          if (DownloadInfo.name report =? name)%string
          then Some (DownloadInfo.progress report) else None
      end
  end.

(** The labels whose handlers assign the status. *)
Definition assignsStatus (l : Label) (m : Machine) : bool :=
  match l with
  | LostEvent | CancelledEvent | FoundEvent | QueuesJoinedEvent
  | SendQueueRequest | SendCancelRequest | SendReadyRequest => true
  | Settle i _ =>
      match awaiting m !! i with
      | Some AwaitQueue | Some AwaitReady => true
      | _ => false
      end
  | _ => false
  end.

Definition listAlert : Call := Alert "Tachyon error: matchmaking/list" error.

Definition isBulkGet (c : Call) : Prop := exists keys, c = BulkGet keys.

(** * Properties *)

(** ** Readiness checks *)

Lemma anyMapMissing_bulkGet (db : gmap string MapData) (keys : list string) :
  anyMapMissing (bulkGet db keys) = true <->
  exists k, k ∈ keys /\ match db !! k with Some row => isInstalled row | None => false end = false.
Proof.
  induction keys as [|k keys IH]; simpl.
  - split; [discriminate|]. intros (k & Hk & _). by apply elem_of_nil in Hk.
  - destruct (db !! k) as [row|] eqn:Hrow.
    + destruct (isInstalled row) eqn:Hinst; simpl.
      * rewrite IH. split.
        -- intros (k' & Hk' & Hmiss). exists k'. split; [by apply elem_of_cons; right|done].
        -- intros (k' & Hk' & Hmiss). apply elem_of_cons in Hk' as [->|Hk'].
           ++ rewrite Hrow, Hinst in Hmiss. discriminate.
           ++ by exists k'.
      * split; [|done]. intros _. exists k. split; [apply elem_of_cons; by left|].
        by rewrite Hrow.
    + split; [|done]. intros _. exists k. split; [apply elem_of_cons; by left|].
      by rewrite Hrow.
Qed.

Lemma elem_of_List_map {A B} (f : A -> B) (l : list A) (y : B) :
  y ∈ List.map f l <-> exists x, x ∈ l /\ y = f x.
Proof.
  rewrite list_elem_of_In, in_map_iff. split.
  - intros (x & <- & Hx). exists x. split; [by apply list_elem_of_In|done].
  - intros (x & Hx & ->). exists x. split; [done|by apply list_elem_of_In].
Qed.

Lemma negb_existsb_true {A} (f : A -> bool) (l : list A) :
  negb (existsb f l) = true <-> forall x, x ∈ l -> f x = false.
Proof.
  rewrite negb_true_iff. split.
  - intros H x Hx. destruct (f x) eqn:Hfx; [|done].
    assert (existsb f l = true) as Hex; [|congruence].
    apply existsb_exists. exists x. split; [by apply list_elem_of_In|done].
  - intros H. destruct (existsb f l) eqn:Hex; [|done].
    apply existsb_exists in Hex as (x & Hx & Hfx).
    apply list_elem_of_In in Hx. rewrite (H x Hx) in Hfx. discriminate.
Qed.

Lemma length_eqb_0 {A} (l : list A) : l <> [] -> (length l =? 0)%nat = false.
Proof. by destruct l. Qed.

(** C1, as the code has it: for non-empty acceptable lists, an engine (a
    game) is needed exactly when none of the acceptable engines (games) is
    installed, whereas maps are needed exactly when at least one of the
    acceptable maps is not installed. *)
Theorem readiness_needed_iff (inv : Inventory)
    (maps : list Playlist.Map) (engines : list Playlist.Engine) (games : list Playlist.Game) :
  maps <> [] -> engines <> [] -> games <> [] ->
  (exists needed,
      checkIfAnyMapsAreNeeded (dbAnswers inv) maps = Fulfilled needed /\
      (needed = true <->
       exists m, m ∈ maps /\ mapInstalled inv (Playlist.mapName m) = false)) /\
  (checkIfEngineIsNeeded inv engines = true <->
   forall e, e ∈ engines -> engineInstalled inv (Playlist.version e) = false) /\
  (checkIfGameIsNeeded inv games = true <->
   forall g, g ∈ games -> gameInstalled inv (Playlist.springName g) = false).
Proof.
  intros Hmaps Hengines Hgames. repeat split.
  - unfold checkIfAnyMapsAreNeeded, dbAnswers. rewrite (length_eqb_0 _ Hmaps).
    eexists. split; [reflexivity|]. rewrite anyMapMissing_bulkGet. unfold mapInstalled. split.
    + intros (k & Hk & Hmiss). apply elem_of_List_map in Hk as (m & Hm & ->). by exists m.
    + intros (m & Hm & Hmiss). exists (Playlist.mapName m). split; [|done].
      apply elem_of_List_map. by exists m.
  - unfold checkIfEngineIsNeeded. rewrite (length_eqb_0 _ Hengines), negb_existsb_true.
    intros H e He. apply H, elem_of_List_map. by exists e.
  - unfold checkIfEngineIsNeeded. rewrite (length_eqb_0 _ Hengines), negb_existsb_true.
    intros H v Hv. apply elem_of_List_map in Hv as (e & He & ->). by apply H.
  - unfold checkIfGameIsNeeded. rewrite (length_eqb_0 _ Hgames), negb_existsb_true.
    intros H g Hg. apply H, elem_of_List_map. by exists g.
  - unfold checkIfGameIsNeeded. rewrite (length_eqb_0 _ Hgames), negb_existsb_true.
    intros H v Hv. apply elem_of_List_map in Hv as (g & Hg & ->). by apply H.
Qed.

Lemma readiness_needed_iff_witness :
  [mapA; mapB] <> [] /\
  (exists needed,
      checkIfAnyMapsAreNeeded (dbAnswers sampleInventory) [mapA; mapB] = Fulfilled needed /\
      (needed = true <->
       exists m, m ∈ [mapA; mapB] /\ mapInstalled sampleInventory (Playlist.mapName m) = false)).
Proof.
  split; [discriminate|].
  apply (readiness_needed_iff sampleInventory [mapA; mapB]
           [ {| Playlist.version := "e1" |} ] [ {| Playlist.springName := "g1" |} ]);
    discriminate.
Defined.

(** C1, as stated, fails for maps: with the acceptable maps A and B, of which
    A is installed, [checkIfAnyMapsAreNeeded] answers [true] although one of
    the acceptable maps is installed. *)
Lemma maps_needed_although_one_installed :
  ~ (forall (inv : Inventory) (maps : list Playlist.Map),
        maps <> [] ->
        (checkIfAnyMapsAreNeeded (dbAnswers inv) maps = Fulfilled true <->
         forall m, m ∈ maps -> mapInstalled inv (Playlist.mapName m) = false)).
Proof.
  intros H.
  destruct (H sampleInventory [mapA; mapB]) as [Hnone _]; [discriminate|].
  specialize (Hnone eq_refl mapA). revert Hnone. vm_compute. intros Hnone.
  assert (mapA ∈ [mapA; mapB]) as Hin by (apply elem_of_cons; by left).
  specialize (Hnone Hin). discriminate.
Qed.

(** ** Suspended functions *)

Lemma lookup_suspended (a : Awaiting) (m : Machine) :
  awaiting (suspend a m) !! length (awaiting m) = Some a.
Proof. unfold suspend; simpl. by rewrite lookup_app_r, Nat.sub_diag. Qed.

Lemma store_foldl_startChecks (queues : list Playlist.t) (m : Machine) :
  store (foldl startChecks m queues) = store m /\
  awaiting (foldl startChecks m queues) = awaiting m /\
  intervals (foldl startChecks m queues) = intervals m /\
  inventory (foldl startChecks m queues) = inventory m.
Proof.
  revert m. induction queues as [|queue queues IH]; intros m; simpl; [done|].
  destruct (IH (startChecks m queue)) as (-> & -> & -> & ->).
  unfold startChecks. by destruct (length (Playlist.maps queue) =? 0)%nat.
Qed.

(** ** The cancel command *)

(** C8: [sendCancelRequest] sets the status to [Idle] before it sends the
    request, and what it does once the request has settled, fulfilled or
    rejected, leaves the status as it finds it; run without another handler in
    between, the command therefore ends with the status [Idle]. *)
Theorem sendCancelRequest_ends_idle (m : Machine) (response : Settled (list Playlist.t)) :
  status (store (sendCancelRequest m)) = Idle /\
  (forall (i : nat) (m1 : Machine),
      status (store (sendCancelRequestResume i response m1)) = status (store m1)) /\
  exists m',
    step (Settle (length (awaiting m)) response) (sendCancelRequest m) = Some m' /\
    m' = sendCancelRequestResume (length (awaiting m)) response (sendCancelRequest m) /\
    status (store m') = Idle /\
    awaiting m' = awaiting m.
Proof.
  split; [reflexivity|]. split.
  - intros i m1. by destruct response.
  - eexists. split; [|split; [reflexivity|]].
    + simpl. unfold settle.
      replace (awaiting (sendCancelRequest m) !! length (awaiting m)) with (Some AwaitCancel);
        [reflexivity|].
      symmetry. apply (lookup_suspended AwaitCancel (call (Request MatchmakingCancel) (update (set_status Idle) m))).
    + assert (forall l : list Awaiting, delete (length l) (l ++ [AwaitCancel]) = l) as Hdel.
      { intros l. induction l as [|a l IH]; simpl; [done|]. by rewrite IH. }
      destruct response; simpl; by rewrite Hdel.
Qed.

(** ** Starting a download *)

(** C10: [downloadBattleContent] has no guard on [isDownloadingContent]: in
    every state, hence also while an earlier download is active, it stores the
    new battle, sets the flag and resets the three progress values; the timers
    of earlier downloads stay live next to the new one. *)
Theorem downloadBattleContent_replaces (battle : PrivateBattle.t) (m : Machine) :
  currentBattle (store (downloadBattleContent battle m)) = Some battle /\
  isDownloadingContent (store (downloadBattleContent battle m)) = true /\
  downloadProgress (store (downloadBattleContent battle m)) = noProgress /\
  intervals (downloadBattleContent battle m) = intervals m ++ [noProgress] /\
  calls (downloadBattleContent battle m) = calls m ++ [SetInterval] /\
  awaiting (downloadBattleContent battle m) = awaiting m.
Proof. repeat split. Qed.

(** ** The simulated download *)

Lemma intervalCallback_fires (i : nat) (m : Machine) (locals : Progress.t) :
  intervals m !! i = Some locals ->
  intervalCallback i m =
  Some (if allComplete (simulatedTick locals)
        then simulatedDownloadResume
               (set_intervals (delete i (intervals m))
                  (call ClearInterval (update (set_downloadProgress (simulatedTick locals)) m)))
        else set_intervals (<[i := simulatedTick locals]> (intervals m))
               (update (set_downloadProgress (simulatedTick locals)) m)).
Proof.
  intros H. unfold intervalCallback. rewrite H.
  change (Math_min (Progress.map locals + 0.08) 1 =? 1)%float
    with (Progress.map (simulatedTick locals) =? 1)%float.
  change ((Progress.map (simulatedTick locals) =? 1)%float &&
          (Math_min (Progress.engine locals + 0.12) 1 =? 1)%float &&
          (Math_min (Progress.game locals + 0.06) 1 =? 1)%float)%bool
    with (allComplete (simulatedTick locals)).
  by destruct (allComplete (simulatedTick locals)).
Qed.

Lemma run_app (ls1 ls2 : list Label) (m : Machine) :
  run (ls1 ++ ls2) m = match run ls1 m with Some m1 => run ls2 m1 | None => None end.
Proof.
  revert m. induction ls1 as [|l ls1 IH]; intros m; simpl; [done|].
  destruct (step l m); [apply IH|done].
Qed.

(** Firings that do not complete the download only move the timer's local
    variables and copy them to the store. *)
Lemma run_fires (n i : nat) : forall (locals : Progress.t) (m : Machine),
  intervals m !! i = Some locals ->
  (forall j, j < n -> allComplete (Nat.iter (S j) simulatedTick locals) = false) ->
  run (repeat (IntervalFires i) n) m = Some (fired n i (Nat.iter n simulatedTick locals) m).
Proof.
  induction n as [|n IH]; intros locals m Hi Hnot; [reflexivity|].
  change (repeat (IntervalFires i) (S n)) with ([IntervalFires i] ++ repeat (IntervalFires i) n).
  rewrite run_app. simpl. rewrite (intervalCallback_fires i m locals Hi).
  pose proof (Hnot 0 ltac:(lia)) as H0. simpl in H0. rewrite H0.
  pose proof (lookup_lt_Some _ _ _ Hi) as Hlt.
  rewrite (IH (simulatedTick locals)).
  - f_equal. rewrite <- Nat.iter_succ_r. destruct n as [|n]; [reflexivity|].
    unfold fired, set_intervals, update; simpl. by rewrite list_insert_insert_eq.
  - simpl. by rewrite list_lookup_insert_eq.
  - intros j Hj. rewrite <- Nat.iter_succ_r. apply Hnot. lia.
Qed.

Lemma simulatedProgress_incomplete (j : nat) :
  j < 16 -> allComplete (simulatedProgress (S j)) = false.
Proof.
  intros Hj.
  assert (forallb (fun j => negb (allComplete (simulatedProgress (S j)))) (seq 0 16) = true) as Hall
    by (vm_compute; reflexivity).
  rewrite forallb_forall in Hall. apply negb_true_iff, Hall, in_seq. lia.
Qed.

Lemma simulatedProgress_17 : simulatedProgress 17 = complete.
Proof. vm_compute. reflexivity. Qed.

Lemma simulatedProgress_nondecreasing (j : nat) :
  j < 17 -> progressLe (simulatedProgress j) (simulatedProgress (S j)) = true.
Proof.
  intros Hj.
  assert (forallb (fun j => progressLe (simulatedProgress j) (simulatedProgress (S j))) (seq 0 17) = true)
    as Hall by (vm_compute; reflexivity).
  rewrite forallb_forall in Hall. apply Hall, in_seq. lia.
Qed.

(** A download started by [downloadBattleContent] whose timer fires [n < 17]
    times, then a 17th time. *)
Lemma simulated_download_runs (battle : PrivateBattle.t) (m : Machine) (n : nat) :
  n < 17 ->
  run (repeat (IntervalFires (length (intervals m))) n) (downloadBattleContent battle m)
  = Some (fired n (length (intervals m)) (simulatedProgress n) (downloadBattleContent battle m)).
Proof.
  intros Hn. apply run_fires.
  - simpl. by rewrite lookup_app_r, Nat.sub_diag.
  - intros j Hj. apply simulatedProgress_incomplete. lia.
Qed.

Lemma delete_insert_last {A} (l : list A) (x y : A) :
  delete (length l) (<[length l := x]> (l ++ [y])) = l.
Proof. induction l as [|a l IH]; simpl; [done|]. by rewrite IH. Qed.

Lemma simulated_download_completes (battle : PrivateBattle.t) (m : Machine) :
  run (repeat (IntervalFires (length (intervals m))) 17) (downloadBattleContent battle m)
  = Some (call (Alert "Battle content downloaded. Ready to launch!" info)
            (call ClearInterval
               (call SetInterval
                  (update (set_isDownloadingContent false)
                     (update (set_downloadProgress complete)
                        (update (set_currentBattle (Some battle)) m)))))).
Proof.
  change 17 with (16 + 1) at 1. rewrite repeat_app, run_app.
  rewrite simulated_download_runs by lia.
  cbn [repeat run step].
  erewrite (intervalCallback_fires _ _ (simulatedProgress 16)).
  2:{ cbn [fired intervals set_intervals]. apply list_lookup_insert_eq.
      cbn. rewrite length_app. simpl. lia. }
  change (simulatedTick (simulatedProgress 16)) with (simulatedProgress 17).
  rewrite simulatedProgress_17.
  change (allComplete complete) with true. cbv iota.
  unfold simulatedDownloadResume, call, update, set_intervals, fired. cbn.
  by rewrite delete_insert_last.
Qed.

(** ** Only the simulated branch runs *)

Create HintDb simulated.

Lemma simulatedOnly_update (f : Store -> Store) (m : Machine) :
  simulatedOnly m -> simulatedOnly (update f m).
Proof. done. Qed.

Lemma simulatedOnly_call (c : Call) (m : Machine) :
  realDownloadCall c = false -> simulatedOnly m -> simulatedOnly (call c m).
Proof.
  intros Hc [Hcalls Hawait]. split; [|done]. simpl.
  apply Forall_app. split; [done|]. by constructor.
Qed.

Lemma simulatedOnly_set_intervals (v : list Progress.t) (m : Machine) :
  simulatedOnly m -> simulatedOnly (set_intervals v m).
Proof. done. Qed.

Lemma simulatedOnly_suspend (a : Awaiting) (m : Machine) :
  realDownloadAwait a = false -> simulatedOnly m -> simulatedOnly (suspend a m).
Proof.
  intros Ha [Hcalls Hawait]. split; [done|]. simpl.
  apply Forall_app. split; [done|]. by constructor.
Qed.

Lemma simulatedOnly_suspendAgain (i : nat) (a : Awaiting) (m : Machine) :
  realDownloadAwait a = false -> simulatedOnly m -> simulatedOnly (suspendAgain i a m).
Proof. intros Ha [Hcalls Hawait]. split; [done|]. simpl. by apply Forall_insert. Qed.

Lemma simulatedOnly_finish (i : nat) (m : Machine) :
  simulatedOnly m -> simulatedOnly (finish i m).
Proof. intros [Hcalls Hawait]. split; [done|]. simpl. by apply Forall_delete. Qed.

Lemma simulatedOnly_startChecks (queues : list Playlist.t) (m : Machine) :
  simulatedOnly m -> simulatedOnly (foldl startChecks m queues).
Proof.
  revert m. induction queues as [|queue queues IH]; intros m Hm; simpl; [done|].
  apply IH. unfold startChecks. destruct (length (Playlist.maps queue) =? 0)%nat; [done|].
  by apply simulatedOnly_call.
Qed.

#[local] Hint Resolve simulatedOnly_update simulatedOnly_call simulatedOnly_set_intervals
  simulatedOnly_suspend simulatedOnly_suspendAgain simulatedOnly_finish
  simulatedOnly_startChecks : simulated.

Lemma simulatedOnly_downloadBattleContent (battle : PrivateBattle.t) (m : Machine) :
  simulatedOnly m -> simulatedOnly (downloadBattleContent battle m).
Proof.
  intros Hm. unfold downloadBattleContent, downloadBattleContent_with, testAssetDownload,
    simulateProgress. auto 10 with simulated.
Qed.

Lemma simulatedOnly_sendListRequest (m : Machine) :
  simulatedOnly m -> simulatedOnly (sendListRequest m).
Proof. intros Hm. unfold sendListRequest. auto 10 with simulated. Qed.

#[local] Hint Resolve simulatedOnly_downloadBattleContent simulatedOnly_sendListRequest : simulated.


(** ** The list request *)

Lemma playlists_refreshStore (ps : list Playlist.t) (s : Store) :
  playlists (refreshStore ps s) = ps.
Proof.
  unfold refreshStore, defaultSelectedQueue. simpl. destruct ps as [|p ps]; [done|].
  by destruct (negb _).
Qed.

Lemma sendListRequestResume_fulfilled (i : nat) (ps : list Playlist.t) (m : Machine) :
  sendListRequestResume i (Fulfilled ps) m =
  match ps with
  | [] => finish i (sendListRequestFinally (update (refreshStore []) m))
  | _ => suspendAgain i (AwaitChecks ps false) (foldl startChecks (update (refreshStore ps) m) ps)
  end.
Proof.
  unfold sendListRequestResume.
  set (m1 := update (set_playlists ps) m).
  set (m2 := match playlists (store m1) with
             | [] => m1
             | first :: _ => if negb _ then _ else m1
             end).
  assert (update (set_downloadsRequired ∅) m2 = update (refreshStore ps) m) as ->.
  { subst m2 m1. unfold refreshStore, defaultSelectedQueue, update. simpl.
    destruct ps as [|p ps]; [done|]. by destruct (negb _). }
  destruct (store_foldl_startChecks (playlists (store (update (refreshStore ps) m)))
              (update (refreshStore ps) m)) as (-> & _).
  cbn [store update]. rewrite !playlists_refreshStore. by destruct ps.
Qed.

Lemma simulatedOnly_step (l : Label) (m m' : Machine) :
  simulatedOnly m -> step l m = Some m' -> simulatedOnly m'.
Proof.
  intros Hm Hstep.
  destruct l as [pq| |rc| | | |cb| | | | |i response|i j answered|i|i type downloadInfo];
    simpl in Hstep.
  1-6: injection Hstep as <-; by apply simulatedOnly_update.
  - injection Hstep as <-. unfold onUserSelfEvent.
    destruct cb; [|done]. case_decide; auto with simulated.
  - injection Hstep as <-. unfold sendQueueRequest.
    destruct (downloadsRequired (store m) !! selectedQueue (store m)); auto 10 with simulated.
  - injection Hstep as <-. unfold sendCancelRequest. auto 10 with simulated.
  - injection Hstep as <-. unfold sendReadyRequest. auto 10 with simulated.
  - injection Hstep as <-. auto with simulated.
  - unfold settle in Hstep. destruct (awaiting m !! i) as [a|] eqn:Ha; [|done].
    destruct a; try done; injection Hstep as <-.
    + unfold sendQueueRequestResume. destruct response; auto 10 with simulated.
    + unfold sendCancelRequestResume. destruct response; auto 10 with simulated.
    + unfold sendReadyRequestResume. destruct response; auto 10 with simulated.
    + destruct response as [ps|].
      * rewrite sendListRequestResume_fulfilled. unfold sendListRequestFinally.
        destruct ps; auto 10 with simulated.
      * unfold sendListRequestResume, sendListRequestFinally, sendListRequestCatch.
        auto 10 with simulated.
    + destruct Hm as [_ Hawait]. rewrite Forall_lookup in Hawait.
      by specialize (Hawait _ _ Ha).
  - unfold checksDone in Hstep. destruct (awaiting m !! i) as [a|] eqn:Ha; [|done].
    destruct a; try done. destruct (running !! j) as [queue|]; [|done].
    unfold sendListRequestFinally, sendListRequestCatch in Hstep.
    destruct (checkIfAnyMapsAreNeeded _ _); destruct (delete j running); destruct settled;
      injection Hstep as <-; auto 10 with simulated.
  - unfold intervalCallback in Hstep. destruct (intervals m !! i); [|done].
    match type of Hstep with (if ?b then _ else _) = _ => destruct b end;
      injection Hstep as <-; unfold simulatedDownloadResume; auto 10 with simulated.
  - unfold downloadProgressEvent in Hstep. destruct (awaiting m !! i) as [a|] eqn:Ha; [|done].
    destruct a; try done. destruct Hm as [_ Hawait]. rewrite Forall_lookup in Hawait.
    by specialize (Hawait _ _ Ha).
Qed.

Lemma simulatedOnly_run (ls : list Label) (m m' : Machine) :
  simulatedOnly m -> run ls m = Some m' -> simulatedOnly m'.
Proof.
  revert m. induction ls as [|l ls IH]; intros m Hm Hrun; simpl in Hrun.
  - by injection Hrun as <-.
  - destruct (step l m) as [m1|] eqn:Hstep; [|done].
    eapply IH; [|done]. by eapply simulatedOnly_step.
Qed.

Lemma simulatedProgress_not_complete (n : nat) :
  n < 17 -> allComplete (simulatedProgress n) = false.
Proof.
  intros Hn. destruct n as [|n]; [reflexivity|]. apply simulatedProgress_incomplete. lia.
Qed.

(** C9: [testAssetDownload] is [true], so [downloadBattleContent] is the
    simulated branch: it creates a timer and nothing else; no run of the store
    from its initial state ever calls the download functions, registers a
    progress listener or awaits a real download. Each firing of the timer adds
    0.08, 0.12 and 0.06 to its three values, capped at 1; the first sixteen
    firings leave the download incomplete and the seventeenth brings the three
    values to 1, clears the timer and ends the download. *)
Theorem downloads_are_simulated (battle : PrivateBattle.t) (m : Machine)
    (inv : Inventory) (ls : list Label) (n : nat) :
  n < 17 ->
  downloadBattleContent battle m
  = simulateProgress
      (update (set_downloadProgress noProgress)
         (update (set_isDownloadingContent true)
            (update (set_currentBattle (Some battle)) m))) /\
  match run ls (initialMachine inv) with
  | Some m' => simulatedOnly m'
  | None => True
  end /\
  (forall locals : Progress.t,
      simulatedTick locals =
      {| Progress.map := Math_min (Progress.map locals + 0.08)%float 1%float;
         Progress.engine := Math_min (Progress.engine locals + 0.12)%float 1%float;
         Progress.game := Math_min (Progress.game locals + 0.06)%float 1%float |}) /\
  run (repeat (IntervalFires (length (intervals m))) n) (downloadBattleContent battle m)
  = Some (fired n (length (intervals m)) (Nat.iter n simulatedTick noProgress)
            (downloadBattleContent battle m)) /\
  allComplete (Nat.iter n simulatedTick noProgress) = false /\
  Nat.iter 17 simulatedTick noProgress = complete /\
  run (repeat (IntervalFires (length (intervals m))) 17) (downloadBattleContent battle m)
  = Some (call successAlert
            (call ClearInterval
               (call SetInterval
                  (update (set_isDownloadingContent false)
                     (update (set_downloadProgress complete)
                        (update (set_currentBattle (Some battle)) m)))))).
Proof.
  intros Hn. split; [reflexivity|]. split.
  { destruct (run ls (initialMachine inv)) as [m'|] eqn:Hrun; [|done].
    eapply simulatedOnly_run; [|exact Hrun]. split; constructor. }
  split; [reflexivity|]. split; [by apply simulated_download_runs|].
  split; [by apply simulatedProgress_not_complete|].
  split; [apply simulatedProgress_17|apply simulated_download_completes].
Qed.

Lemma downloads_are_simulated_witness :
  3 < 17 /\
  run (repeat (IntervalFires 0) 3) (downloadBattleContent battleMEG (initialMachine sampleInventory))
  = Some (fired 3 0 (Nat.iter 3 simulatedTick noProgress)
            (downloadBattleContent battleMEG (initialMachine sampleInventory))).
Proof.
  split; [lia|].
  apply (downloads_are_simulated battleMEG (initialMachine sampleInventory) sampleInventory [] 3).
  lia.
Defined.

(** ** The real download branch *)

Lemma lookup_last {A} (l : list A) (x : A) : (l ++ [x]) !! length l = Some x.
Proof. by rewrite lookup_app_r, Nat.sub_diag. Qed.

Lemma insert_last {A} (l : list A) (x y : A) : <[length l := y]> (l ++ [x]) = l ++ [y].
Proof. induction l as [|a l IH]; simpl; [done|]. by rewrite IH. Qed.

Lemma delete_last {A} (l : list A) (x : A) : delete (length l) (l ++ [x]) = l.
Proof. induction l as [|a l IH]; simpl; [done|]. by rewrite IH. Qed.

Lemma run_progress_events (i : nat) (type stage : Asset) (battle : PrivateBattle.t)
    (reports : list DownloadInfo.t) : forall m : Machine,
  awaiting m !! i = Some (AwaitDownload battle stage) ->
  run (List.map (DownloadProgressEvent i type) reports) m
  = Some (update (reportAll type battle reports) m).
Proof.
  induction reports as [|report reports IH]; intros m Hi; simpl.
  - by destruct m.
  - unfold downloadProgressEvent. rewrite Hi. by rewrite IH.
Qed.

Lemma run_download_stage (i : nat) (stage : Asset) (battle : PrivateBattle.t)
    (reports : list DownloadInfo.t) (outcome : Settled (list Playlist.t)) (m : Machine) :
  awaiting m !! i = Some (AwaitDownload battle stage) ->
  run (List.map (DownloadProgressEvent i stage) reports ++ [Settle i outcome]) m
  = Some (downloadResume i battle stage outcome (update (reportAll stage battle reports) m)).
Proof.
  intros Hi. rewrite run_app, (run_progress_events i stage stage battle reports m Hi).
  simpl. unfold settle. simpl. by rewrite Hi.
Qed.

Lemma getProgress_reportAll (type other : Asset) (battle : PrivateBattle.t)
    (reports : list DownloadInfo.t) : forall s : Store,
  type <> other ->
  getProgress other (downloadProgress (reportAll type battle reports s))
  = getProgress other (downloadProgress s).
Proof.
  induction reports as [|report reports IH]; intros s Hne; [done|].
  cbn [reportAll]. rewrite IH by done. unfold createProgressListener.
  destruct (_ =? _)%string; [|done]. by destruct type, other.
Qed.

Lemma progress_ext (p : Progress.t) (a b c : float) :
  getProgress AssetMap p = a -> getProgress AssetEngine p = b -> getProgress AssetGame p = c ->
  p = {| Progress.map := a; Progress.engine := b; Progress.game := c |}.
Proof. destruct p; simpl. by intros -> -> ->. Qed.

Lemma run_download_stage_then (i : nat) (stage : Asset) (battle : PrivateBattle.t)
    (reports : list DownloadInfo.t) (outcome : Settled (list Playlist.t))
    (rest : list Label) (m : Machine) :
  awaiting m !! i = Some (AwaitDownload battle stage) ->
  run (List.map (DownloadProgressEvent i stage) reports ++ Settle i outcome :: rest) m
  = run rest (downloadResume i battle stage outcome (update (reportAll stage battle reports) m)).
Proof.
  intros Hi. rewrite cons_middle, app_assoc, run_app.
  by rewrite (run_download_stage i stage battle reports outcome m Hi).
Qed.

Ltac in_calls := by repeat first [apply list_elem_of_here | apply list_elem_of_further].
Ltac not_in_calls H :=
  repeat (apply elem_of_cons in H as [H|H]; [discriminate|]); by apply elem_of_nil in H.
Ltac unfold_download :=
  cbn [downloadResume downloadFinally finish suspendAgain suspend
       calls awaiting store call update set_awaiting downloadBattleContent_with].

Lemma real_download (battle : PrivateBattle.t) (m : Machine)
    (r1 r2 r3 : list DownloadInfo.t) (o1 o2 o3 : Settled (list Playlist.t)) :
  exists m' new,
    run (realDownloadLabels (length (awaiting m))
           [(AssetMap, r1, o1); (AssetEngine, r2, o2); (AssetGame, r3, o3)])
        (downloadBattleContent_with false battle m) = Some m' /\
    calls m' = calls m ++ new /\
    (successAlert ∈ new <-> (isFulfilled o1 && isFulfilled o2 && isFulfilled o3)%bool = true) /\
    (failureAlert ∈ new <-> (isFulfilled o1 && isFulfilled o2 && isFulfilled o3)%bool = false) /\
    ((isFulfilled o1 && isFulfilled o2 && isFulfilled o3)%bool = true ->
     downloadProgress (store m') = complete) /\
    isDownloadingContent (store m') = false /\
    awaiting m' = awaiting m.
Proof.
  set (i := length (awaiting m)).
  set (m0 := downloadBattleContent_with false battle m).
  assert (awaiting m0 !! i = Some (AwaitDownload battle AssetMap)) as H0 by apply lookup_last.
  cbn [realDownloadLabels].
  rewrite (run_download_stage_then i AssetMap battle r1 o1 _ m0 H0).
  set (m1 := downloadResume i battle AssetMap o1 (update (reportAll AssetMap battle r1) m0)).
  destruct o1 as [v1|]; cbn [isFulfilled andb].
  2:{ exists m1,
        [OnDownloadProgress AssetMap; OnDownloadProgress AssetEngine; OnDownloadProgress AssetGame;
         DownloadMap (PrivateBattle.map_springName battle); failureAlert;
         OnDownloadProgress AssetMap; OnDownloadProgress AssetEngine; OnDownloadProgress AssetGame].
      split; [reflexivity|]. split.
      { subst m1 m0 i. unfold_download. by rewrite <- !app_assoc. }
      split; [split; [intros H; not_in_calls H|done]|].
      split; [split; [done|intros _; in_calls]|].
      split; [done|]. split; [reflexivity|].
      subst m1 m0 i. unfold_download. apply delete_last. }
  assert (awaiting m1 !! i = Some (AwaitDownload battle AssetEngine)) as H1.
  { subst m1 m0 i. unfold_download. by rewrite insert_last, lookup_last. }
  rewrite (run_download_stage_then i AssetEngine battle r2 o2 _ m1 H1).
  set (m2 := downloadResume i battle AssetEngine o2 (update (reportAll AssetEngine battle r2) m1)).
  destruct o2 as [v2|]; cbn [isFulfilled andb].
  2:{ exists m2,
        [OnDownloadProgress AssetMap; OnDownloadProgress AssetEngine; OnDownloadProgress AssetGame;
         DownloadMap (PrivateBattle.map_springName battle);
         DownloadEngine (PrivateBattle.engine_version battle); failureAlert;
         OnDownloadProgress AssetMap; OnDownloadProgress AssetEngine; OnDownloadProgress AssetGame].
      split; [reflexivity|]. split.
      { subst m2 m1 m0 i. unfold_download. by rewrite <- !app_assoc. }
      split; [split; [intros H; not_in_calls H|done]|].
      split; [split; [done|intros _; in_calls]|].
      split; [done|]. split; [reflexivity|].
      subst m2 m1 m0 i. unfold_download. by rewrite insert_last, delete_last. }
  assert (awaiting m2 !! i = Some (AwaitDownload battle AssetGame)) as H2.
  { subst m2 m1 m0 i. unfold_download. by rewrite !insert_last, lookup_last. }
  rewrite (run_download_stage_then i AssetGame battle r3 o3 _ m2 H2).
  set (m3 := downloadResume i battle AssetGame o3 (update (reportAll AssetGame battle r3) m2)).
  destruct o3 as [v3|]; cbn [isFulfilled andb].
  2:{ exists m3,
        [OnDownloadProgress AssetMap; OnDownloadProgress AssetEngine; OnDownloadProgress AssetGame;
         DownloadMap (PrivateBattle.map_springName battle);
         DownloadEngine (PrivateBattle.engine_version battle);
         DownloadGame (PrivateBattle.game_springName battle); failureAlert;
         OnDownloadProgress AssetMap; OnDownloadProgress AssetEngine; OnDownloadProgress AssetGame].
      split; [reflexivity|]. split.
      { subst m3 m2 m1 m0 i. unfold_download. by rewrite <- !app_assoc. }
      split; [split; [intros H; not_in_calls H|done]|].
      split; [split; [done|intros _; in_calls]|].
      split; [done|]. split; [reflexivity|].
      subst m3 m2 m1 m0 i. unfold_download. by rewrite !insert_last, delete_last. }
  exists m3,
    [OnDownloadProgress AssetMap; OnDownloadProgress AssetEngine; OnDownloadProgress AssetGame;
     DownloadMap (PrivateBattle.map_springName battle);
     DownloadEngine (PrivateBattle.engine_version battle);
     DownloadGame (PrivateBattle.game_springName battle); successAlert;
     OnDownloadProgress AssetMap; OnDownloadProgress AssetEngine; OnDownloadProgress AssetGame].
  split; [reflexivity|]. split.
  { subst m3 m2 m1 m0 i. unfold_download. by rewrite <- !app_assoc. }
  split; [split; [done|intros _; in_calls]|].
  split; [split; [intros H; not_in_calls H|done]|].
  split; [|split; [reflexivity|]].
  - intros _. apply progress_ext.
    + subst m3. unfold_download. cbn [downloadProgress set_downloadProgress set_isDownloadingContent getProgress setProgress Progress.map].
      change (Progress.map ?p) with (getProgress AssetMap p).
      rewrite getProgress_reportAll by done.
      subst m2. unfold_download. cbn [downloadProgress set_downloadProgress getProgress setProgress Progress.map].
      change (Progress.map ?p) with (getProgress AssetMap p).
      rewrite getProgress_reportAll by done.
      reflexivity.
    + subst m3. unfold_download. cbn [downloadProgress set_downloadProgress set_isDownloadingContent getProgress setProgress Progress.engine].
      change (Progress.engine ?p) with (getProgress AssetEngine p).
      rewrite getProgress_reportAll by done.
      reflexivity.
    + reflexivity.
  - subst m3 m2 m1 m0 i. unfold_download. by rewrite !insert_last, delete_last.
Qed.

(** C7: a download reports success exactly when its three downloads complete.
    In the real branch, whatever progress the three downloads report, the
    success alert is raised if and only if the three downloads are fulfilled, and then the three
    progress values are 1; otherwise the failure alert is raised and the
    success alert is not. In the simulated branch nothing can fail: the alert
    is raised by the firing that brings the three values to 1, and not before.
    Both branches leave [isDownloadingContent] false. *)
Theorem download_success_iff_complete (battle : PrivateBattle.t) (m : Machine)
    (r1 r2 r3 : list DownloadInfo.t) (o1 o2 o3 : Settled (list Playlist.t)) (n : nat) :
  n < 17 ->
  (exists m' new,
      run (realDownloadLabels (length (awaiting m))
             [(AssetMap, r1, o1); (AssetEngine, r2, o2); (AssetGame, r3, o3)])
          (downloadBattleContent_with false battle m) = Some m' /\
      calls m' = calls m ++ new /\
      (successAlert ∈ new <-> (isFulfilled o1 && isFulfilled o2 && isFulfilled o3)%bool = true) /\
      (failureAlert ∈ new <-> (isFulfilled o1 && isFulfilled o2 && isFulfilled o3)%bool = false) /\
      ((isFulfilled o1 && isFulfilled o2 && isFulfilled o3)%bool = true ->
       downloadProgress (store m') = complete) /\
      isDownloadingContent (store m') = false /\
      awaiting m' = awaiting m) /\
  (exists mn,
      run (repeat (IntervalFires (length (intervals m))) n) (downloadBattleContent battle m)
      = Some mn /\
      calls mn = calls m ++ [SetInterval] /\
      allComplete (downloadProgress (store mn)) = false /\
      isDownloadingContent (store mn) = true) /\
  (exists m',
      run (repeat (IntervalFires (length (intervals m))) 17) (downloadBattleContent battle m)
      = Some m' /\
      calls m' = calls m ++ [SetInterval; ClearInterval; successAlert] /\
      downloadProgress (store m') = complete /\
      isDownloadingContent (store m') = false /\
      intervals m' = intervals m).
Proof.
  intros Hn. split; [apply real_download|]. split.
  - eexists. split; [by apply simulated_download_runs|].
    destruct n as [|n]; [done|]. repeat split.
    by apply simulatedProgress_not_complete.
  - eexists. split; [apply simulated_download_completes|].
    repeat split. simpl. by rewrite <- !app_assoc.
Qed.

Lemma download_success_iff_complete_witness :
  5 < 17 /\
  exists mn,
    run (repeat (IntervalFires 0) 5)
        (downloadBattleContent battleMEG (initialMachine sampleInventory)) = Some mn /\
    calls mn = [SetInterval] /\
    allComplete (downloadProgress (store mn)) = false /\
    isDownloadingContent (store mn) = true.
Proof.
  split; [lia|].
  apply (download_success_iff_complete battleMEG (initialMachine sampleInventory)
           [] [] [] Rejected Rejected Rejected 5).
  lia.
Defined.

(** ** Progress reports *)

Lemma createProgressListener_stores (type : Asset) (battle : PrivateBattle.t)
    (downloadInfo : DownloadInfo.t) (s : Store) :
  DownloadInfo.name downloadInfo = assetName type battle ->
  createProgressListener type battle downloadInfo s
  = set_downloadProgress
      (setProgress type (DownloadInfo.progress downloadInfo) (downloadProgress s)) s.
Proof. intros Hname. unfold createProgressListener. by rewrite Hname, String.eqb_refl. Qed.

Lemma createProgressListener_ignores (type : Asset) (battle : PrivateBattle.t)
    (downloadInfo : DownloadInfo.t) (s : Store) :
  DownloadInfo.name downloadInfo <> assetName type battle ->
  createProgressListener type battle downloadInfo s = s.
Proof.
  intros Hname. unfold createProgressListener.
  by destruct (String.eqb_spec (DownloadInfo.name downloadInfo) (assetName type battle)).
Qed.

Lemma getProgress_setProgress (type : Asset) (v : float) (p : Progress.t) :
  getProgress type (setProgress type v p) = v.
Proof. by destruct type. Qed.

(** C3, as the code has it: the listener of an asset stores every report that
    bears the name of the battle's asset, whatever value the store holds, and
    ignores only the reports that bear another name; the stored values are
    therefore the reported ones, in order. The values that the timer of a
    simulated download stores are non-decreasing from one firing to the
    next. *)
Theorem progress_reports_are_stored (type : Asset) (battle : PrivateBattle.t)
    (downloadInfo : DownloadInfo.t) (s : Store) (m : Machine) (n : nat) :
  n < 17 ->
  (DownloadInfo.name downloadInfo = assetName type battle ->
   getProgress type (downloadProgress (createProgressListener type battle downloadInfo s))
   = DownloadInfo.progress downloadInfo) /\
  (DownloadInfo.name downloadInfo <> assetName type battle ->
   createProgressListener type battle downloadInfo s = s) /\
  (exists mn mn',
      run (repeat (IntervalFires (length (intervals m))) n) (downloadBattleContent battle m)
      = Some mn /\
      step (IntervalFires (length (intervals m))) mn = Some mn' /\
      downloadProgress (store mn) = Nat.iter n simulatedTick noProgress /\
      downloadProgress (store mn') = simulatedTick (downloadProgress (store mn)) /\
      progressLe (downloadProgress (store mn)) (downloadProgress (store mn')) = true).
Proof.
  intros Hn. split; [|split].
  - intros Hname. rewrite createProgressListener_stores by done. simpl.
    apply getProgress_setProgress.
  - apply createProgressListener_ignores.
  - pose proof (simulated_download_runs battle m n Hn) as Hrun.
    assert (downloadProgress
              (store (fired n (length (intervals m)) (simulatedProgress n)
                        (downloadBattleContent battle m))) = simulatedProgress n) as Hstored
      by (by destruct n).
    assert (intervals (fired n (length (intervals m)) (simulatedProgress n)
                         (downloadBattleContent battle m)) !! length (intervals m)
            = Some (simulatedProgress n)) as Hlocals.
    { destruct n as [|n]; simpl.
      - apply lookup_last.
      - by rewrite insert_last, lookup_last. }
    eexists _, _. split; [exact Hrun|]. split.
    { simpl. apply (intervalCallback_fires _ _ _ Hlocals). }
    rewrite Hstored. split; [reflexivity|].
    assert (forall (a1 a2 : list Progress.t) (b : Machine),
      downloadProgress (store (if allComplete (simulatedTick (simulatedProgress n))
                               then simulatedDownloadResume
                                      (set_intervals a1 (call ClearInterval
                                         (update (set_downloadProgress (simulatedTick (simulatedProgress n))) b)))
                               else set_intervals a2
                                      (update (set_downloadProgress (simulatedTick (simulatedProgress n))) b)))
      = simulatedTick (simulatedProgress n)) as Hnext
      by (intros a1 a2 b; by destruct (allComplete _)).
    rewrite Hnext. split; [reflexivity|].
    by apply (simulatedProgress_nondecreasing n).
Qed.

Lemma progress_reports_are_stored_witness :
  3 < 17 /\
  DownloadInfo.name reportFifth = assetName AssetMap battleMEG /\
  getProgress AssetMap
    (downloadProgress
       (createProgressListener AssetMap battleMEG reportFifth
          (createProgressListener AssetMap battleMEG reportHalf initialStore)))
  = DownloadInfo.progress reportFifth.
Proof.
  split; [lia|]. split; [reflexivity|].
  apply (progress_reports_are_stored AssetMap battleMEG reportFifth
           (createProgressListener AssetMap battleMEG reportHalf initialStore)
           (initialMachine sampleInventory) 3); [lia|reflexivity].
Defined.

(** C3, as stated, fails: the reports 0.5 then 0.2 for the map of the battle
    are both stored, the second is not discarded. *)
Lemma decreasing_report_is_stored :
  storedAfter AssetMap battleMEG [reportHalf; reportFifth] initialStore = [0.5%float; 0.2%float] /\
  nondecreasing (storedAfter AssetMap battleMEG [reportHalf; reportFifth] initialStore) = false.
Proof. split; vm_compute; reflexivity. Qed.

(** ** Battle assignments *)

Lemma timersCreated_call_SetInterval (m : Machine) :
  timersCreated (call SetInterval m) = S (timersCreated m).
Proof.
  unfold timersCreated. simpl. rewrite filter_app, length_app. simpl. lia.
Qed.

(** C2, as the code has it: while the status is [MatchAccepted], every
    [user/self] event that carries a battle calls [downloadBattleContent],
    whether or not the battle is the one already stored: [n] such events
    create [n] timers and each of them resets the progress. *)
Theorem every_assignment_starts_a_download (battle : PrivateBattle.t) (n : nat) :
  forall m : Machine,
  status (store m) = MatchAccepted ->
  exists m',
    run (repeat (UserSelfEvent (Some battle)) n) m = Some m' /\
    timersCreated m' = timersCreated m + n /\
    intervals m' = intervals m ++ repeat noProgress n /\
    status (store m') = MatchAccepted /\
    (0 < n ->
     currentBattle (store m') = Some battle /\
     downloadProgress (store m') = noProgress /\
     isDownloadingContent (store m') = true).
Proof.
  induction n as [|n IH]; intros m Hstatus.
  - exists m. simpl. rewrite Nat.add_0_r, app_nil_r. repeat split; try done; lia.
  - simpl. unfold onUserSelfEvent. rewrite decide_True by done.
    destruct (IH (downloadBattleContent battle m) Hstatus)
      as (m' & Hrun & Htimers & Hintervals & Hstatus' & Hlast).
    exists m'. split; [done|]. split; [|split; [|split; [done|]]].
    + rewrite Htimers.
      change (downloadBattleContent battle m) with
        (set_intervals (intervals m ++ [noProgress])
           (call SetInterval
              (update (set_downloadProgress noProgress)
                 (update (set_isDownloadingContent true)
                    (update (set_currentBattle (Some battle)) m))))).
      unfold timersCreated at 1. cbn [calls set_intervals].
      fold (timersCreated (call SetInterval
               (update (set_downloadProgress noProgress)
                  (update (set_isDownloadingContent true)
                     (update (set_currentBattle (Some battle)) m))))).
      rewrite timersCreated_call_SetInterval. unfold timersCreated. simpl. lia.
    + rewrite Hintervals. simpl. by rewrite <- app_assoc.
    + intros _. destruct n as [|n]; [|apply Hlast; lia].
      simpl in Hrun. by injection Hrun as <-.
Qed.

Lemma every_assignment_starts_a_download_witness :
  status (store (update (set_status MatchAccepted) (initialMachine sampleInventory))) = MatchAccepted /\
  exists m',
    run (repeat (UserSelfEvent (Some battleMEG)) 2)
        (update (set_status MatchAccepted) (initialMachine sampleInventory)) = Some m' /\
    timersCreated m' = timersCreated (update (set_status MatchAccepted) (initialMachine sampleInventory)) + 2 /\
    intervals m' = [] ++ repeat noProgress 2 /\
    status (store m') = MatchAccepted /\
    (0 < 2 ->
     currentBattle (store m') = Some battleMEG /\
     downloadProgress (store m') = noProgress /\
     isDownloadingContent (store m') = true).
Proof.
  split; [reflexivity|].
  apply (every_assignment_starts_a_download battleMEG 2
           (update (set_status MatchAccepted) (initialMachine sampleInventory))).
  reflexivity.
Defined.

(** C2, as stated, fails: once a match is accepted (and the test download
    started by the queue command has completed), the same assignment delivered
    twice creates two timers; the second event, arriving after three firings
    of the first timer, resets the progress while the first timer stays
    live. *)
Lemma same_assignment_twice_starts_two_downloads :
  match run acceptedTrace (initialMachine sampleInventory) with
  | Some m1 =>
      status (store m1) = MatchAccepted /\
      timersCreated m1 = 1 /\
      intervals m1 = [] /\
      match run ([UserSelfEvent (Some battleMEG)] ++ repeat (IntervalFires 0) 3 ++
                 [UserSelfEvent (Some battleMEG)]) m1 with
      | Some m2 =>
          status (store m2) = MatchAccepted /\
          timersCreated m2 = 3 /\
          intervals m2 = [Nat.iter 3 simulatedTick noProgress; noProgress] /\
          downloadProgress (store m2) = noProgress
      | None => False
      end
  | None => False
  end.
Proof. vm_compute. repeat split. Qed.

(** ** The download state and the session status *)

Lemma status_refreshStore (ps : list Playlist.t) (s : Store) :
  status (refreshStore ps s) = status s.
Proof.
  unfold refreshStore, defaultSelectedQueue. simpl. destruct ps as [|p ps]; [done|].
  by destruct (negb _).
Qed.

Lemma status_step (l : Label) (m m' : Machine) :
  step l m = Some m' ->
  status (store m') = status (store m) \/
  status (store m') <> Idle \/
  (currentBattle (store m') = currentBattle (store m) /\
   downloadProgress (store m') = downloadProgress (store m) /\
   isDownloadingContent (store m') = isDownloadingContent (store m)).
Proof.
  intros Hstep.
  destruct l as [pq| |rc| | | |cb| | | | |i response|i j answered|i|i type downloadInfo];
    simpl in Hstep.
  - injection Hstep as <-. by left.
  - injection Hstep as <-. by right; left.
  - injection Hstep as <-. by left.
  - injection Hstep as <-. by right; right.
  - injection Hstep as <-. by right; left.
  - injection Hstep as <-. by right; left.
  - injection Hstep as <-. left. unfold onUserSelfEvent.
    destruct cb; [|done]. by case_decide.
  - injection Hstep as <-. unfold sendQueueRequest.
    destruct (downloadsRequired (store m) !! selectedQueue (store m)); [by right; left|by left].
  - injection Hstep as <-. by right; right.
  - injection Hstep as <-. by right; left.
  - injection Hstep as <-. by left.
  - unfold settle in Hstep. destruct (awaiting m !! i) as [a|] eqn:Ha; [|done].
    destruct a; try done; injection Hstep as <-.
    + destruct response; [by right; left|by right; right].
    + left. by destruct response.
    + destruct response; [by left|by right; right].
    + left. destruct response as [ps|]; [|done].
      rewrite sendListRequestResume_fulfilled. destruct ps as [|p ps].
      * done.
      * cbn [store suspendAgain set_awaiting].
        destruct (store_foldl_startChecks (p :: ps) (update (refreshStore (p :: ps)) m))
          as (-> & _).
        simpl. apply status_refreshStore.
    + left. by destruct response, stage.
  - left. unfold checksDone in Hstep. destruct (awaiting m !! i) as [a|] eqn:Ha; [|done].
    destruct a; try done. destruct (running !! j) as [queue|]; [|done].
    destruct (checkIfAnyMapsAreNeeded _ _); destruct (delete j running); destruct settled;
      by injection Hstep as <-.
  - left. unfold intervalCallback in Hstep. destruct (intervals m !! i); [|done].
    match type of Hstep with (if ?b then _ else _) = _ => destruct b end;
      by injection Hstep as <-.
  - left. unfold downloadProgressEvent in Hstep.
    destruct (awaiting m !! i) as [a|] eqn:Ha; [|done].
    destruct a; try done. injection Hstep as <-. simpl. unfold createProgressListener.
    by destruct (_ =? _)%string.
Qed.

(** C6, as the code has it: a [user/self] event starts a download only while
    the status is [MatchAccepted], but the queue command starts one too, with
    its test battle and in whatever status, as soon as the selected queue has
    a record; and a step that brings the status to [Idle] leaves the battle,
    the progress and the flag as they were. *)
Theorem download_state_outlives_status (currentBattle' : option PrivateBattle.t)
    (record : DownloadsRequired) (l : Label) (m m' : Machine) :
  (status (store m) <> MatchAccepted -> onUserSelfEvent currentBattle' m = m) /\
  (downloadsRequired (store m) !! selectedQueue (store m) = Some record ->
   currentBattle (store (sendQueueRequest m)) = Some testBattle /\
   isDownloadingContent (store (sendQueueRequest m)) = true /\
   downloadProgress (store (sendQueueRequest m)) = noProgress /\
   intervals (sendQueueRequest m) = intervals m ++ [noProgress] /\
   status (store (sendQueueRequest m)) = JoinRequested) /\
  (step l m = Some m' ->
   status (store m) <> Idle ->
   status (store m') = Idle ->
   currentBattle (store m') = currentBattle (store m) /\
   downloadProgress (store m') = downloadProgress (store m) /\
   isDownloadingContent (store m') = isDownloadingContent (store m)).
Proof.
  split; [|split].
  - intros Hstatus. unfold onUserSelfEvent. destruct currentBattle'; [|done].
    by rewrite decide_False.
  - intros Hrecord. unfold sendQueueRequest. rewrite Hrecord. by repeat split.
  - intros Hstep Hbefore Hafter.
    destruct (status_step l m m' Hstep) as [Hsame|[Hnot|Hkept]]; [|done|done].
    rewrite Hsame in Hafter. done.
Qed.

Lemma download_state_outlives_status_witness :
  step CancelledEvent (update (set_status MatchAccepted)
                         (downloadBattleContent battleMEG (initialMachine sampleInventory)))
  = Some (onCancelledEvent (update (set_status MatchAccepted)
                              (downloadBattleContent battleMEG (initialMachine sampleInventory)))) /\
  MatchAccepted <> Idle /\
  status (store (onCancelledEvent (update (set_status MatchAccepted)
                   (downloadBattleContent battleMEG (initialMachine sampleInventory))))) = Idle /\
  currentBattle (store (onCancelledEvent (update (set_status MatchAccepted)
                   (downloadBattleContent battleMEG (initialMachine sampleInventory)))))
  = Some battleMEG.
Proof.
  split; [reflexivity|]. split; [discriminate|]. split; [reflexivity|].
  apply (download_state_outlives_status None
           {| mapsNeeded := false; engineNeeded := false; gameNeeded := false;
              engineVersion := ""; gameVersion := "" |}
           CancelledEvent
           (update (set_status MatchAccepted)
              (downloadBattleContent battleMEG (initialMachine sampleInventory)))
           (onCancelledEvent (update (set_status MatchAccepted)
              (downloadBattleContent battleMEG (initialMachine sampleInventory)))));
    [reflexivity|discriminate|reflexivity].
Defined.

(** C6, as stated, fails: from the initial state, once the list is fetched
    the queue command stores a battle and starts a download while the status
    is [Idle]; the timer fires while the status is [JoinRequested]; the queue
    request is then rejected and the status is back to [Idle] with the battle
    and a non-zero progress still in the store. *)
Lemma download_state_outside_MatchAccepted :
  match run [SendListRequest; Settle 0 (Fulfilled [playlist1v1]); ChecksDone 0 0 true]
            (initialMachine sampleInventory) with
  | Some m1 =>
      status (store m1) = Idle /\
      currentBattle (store m1) = None /\
      match run [SendQueueRequest; IntervalFires 0] m1 with
      | Some m2 =>
          status (store m2) = JoinRequested /\
          currentBattle (store m2) = Some testBattle /\
          isDownloadingContent (store m2) = true /\
          downloadProgress (store m2) = Nat.iter 1 simulatedTick noProgress /\
          (Progress.map (downloadProgress (store m2)) =? 0)%float = false /\
          match run [Settle 0 Rejected] m2 with
          | Some m3 =>
              status (store m3) = Idle /\
              currentBattle (store m3) = Some testBattle /\
              isDownloadingContent (store m3) = true /\
              (Progress.map (downloadProgress (store m3)) =? 0)%float = false
          | None => False
          end
      | None => False
      end
  | None => False
  end.
Proof. vm_compute. repeat split. Qed.

(** ** Readiness records of a refreshed list *)

Lemma checkIfAnyMapsAreNeeded_answered (inv : Inventory) (maps : list Playlist.Map) :
  checkIfAnyMapsAreNeeded (dbAnswers inv) maps
  = Fulfilled (anyMapMissing (bulkGet (db_maps inv) (List.map Playlist.mapName maps))).
Proof. unfold checkIfAnyMapsAreNeeded. by destruct maps. Qed.

Lemma checkIfAnyMapsAreNeeded_failed (maps : list Playlist.Map) :
  maps <> [] -> checkIfAnyMapsAreNeeded (fun _ => Rejected) maps = Rejected.
Proof. by destruct maps. Qed.

Lemma checksDone_answered (i j : nat) (running : list Playlist.t) (settled : bool)
    (queue : Playlist.t) (m : Machine) :
  awaiting m !! i = Some (AwaitChecks running settled) ->
  running !! j = Some queue ->
  checksDone i j true m =
  Some (let m1 := update (fun s => set_downloadsRequired
                         (<[Playlist.id queue := recordFor (inventory m) queue]> (downloadsRequired s)) s) m in
        match delete j running with
        | [] => finish i (if settled then m1 else sendListRequestFinally m1)
        | rest => suspendAgain i (AwaitChecks rest settled) m1
        end).
Proof.
  intros Hi Hj. unfold checksDone. rewrite Hi, Hj, checkIfAnyMapsAreNeeded_answered.
  by destruct (delete j running).
Qed.

Lemma checksDone_failed (i j : nat) (running : list Playlist.t) (settled : bool)
    (queue : Playlist.t) (m : Machine) :
  awaiting m !! i = Some (AwaitChecks running settled) ->
  running !! j = Some queue ->
  Playlist.maps queue <> [] ->
  checksDone i j false m =
  Some (let m1 := if settled then m else sendListRequestFinally (sendListRequestCatch m) in
        match delete j running with
        | [] => finish i m1
        | rest => suspendAgain i (AwaitChecks rest true) m1
        end).
Proof.
  intros Hi Hj Hmaps. unfold checksDone.
  rewrite Hi, Hj, checkIfAnyMapsAreNeeded_failed by done.
  by destruct (delete j running).
Qed.

(** C4, as the code has it: when the database query of a playlist fails, no
    record is written for that playlist, and the refresh as a whole reports
    the failure (error alert, [queueError]), unless it has done so already;
    the callbacks of the other playlists keep running, and each of them still
    writes its record when its own query is answered. *)
Theorem failed_query_leaves_no_record (i j : nat) (running : list Playlist.t)
    (settled : bool) (queue : Playlist.t) (m : Machine) :
  awaiting m !! i = Some (AwaitChecks running settled) ->
  running !! j = Some queue ->
  Playlist.maps queue <> [] ->
  (exists m',
      step (ChecksDone i j false) m = Some m' /\
      downloadsRequired (store m') = downloadsRequired (store m) /\
      (settled = false ->
       queueError (store m') = Some "Failed to retrieve available queues" /\
       isLoadingQueues (store m') = false /\
       calls m' = calls m ++ [Alert "Tachyon error: matchmaking/list" error]) /\
      (settled = true -> store m' = store m /\ calls m' = calls m) /\
      awaiting m' = match delete j running with
                    | [] => delete i (awaiting m)
                    | rest => <[i := AwaitChecks rest true]> (awaiting m)
                    end) /\
  (exists m',
      step (ChecksDone i j true) m = Some m' /\
      downloadsRequired (store m')
      = <[Playlist.id queue := recordFor (inventory m) queue]> (downloadsRequired (store m)) /\
      awaiting m' = match delete j running with
                    | [] => delete i (awaiting m)
                    | rest => <[i := AwaitChecks rest settled]> (awaiting m)
                    end).
Proof.
  intros Hi Hj Hmaps. split.
  - eexists. split; [apply (checksDone_failed i j running settled queue m Hi Hj Hmaps)|].
    destruct (delete j running), settled; repeat split; done.
  - eexists. split; [apply (checksDone_answered i j running settled queue m Hi Hj)|].
    destruct (delete j running), settled; repeat split; done.
Qed.

Lemma failed_query_leaves_no_record_witness :
  match run [SendListRequest; Settle 0 (Fulfilled [playlist1v1; playlist2v2])]
            (initialMachine sampleInventory) with
  | Some m =>
      awaiting m !! 0 = Some (AwaitChecks [playlist1v1; playlist2v2] false) /\
      [playlist1v1; playlist2v2] !! 1 = Some playlist2v2 /\
      Playlist.maps playlist2v2 <> [] /\
      exists m',
        step (ChecksDone 0 1 false) m = Some m' /\
        downloadsRequired (store m') = downloadsRequired (store m)
  | None => False
  end.
Proof.
  destruct (run [SendListRequest; Settle 0 (Fulfilled [playlist1v1; playlist2v2])]
              (initialMachine sampleInventory)) as [m|] eqn:Hrun; [|discriminate].
  assert (awaiting m !! 0 = Some (AwaitChecks [playlist1v1; playlist2v2] false)) as Hi.
  { vm_compute in Hrun. by injection Hrun as <-. }
  split; [exact Hi|]. split; [reflexivity|]. split; [discriminate|].
  destruct (failed_query_leaves_no_record 0 1 [playlist1v1; playlist2v2] false playlist2v2 m
              Hi eq_refl ltac:(discriminate)) as [(m' & Hstep & Hsame & _) _].
  by exists m'.
Defined.

(** C4, as stated, fails: of two playlists, the query of "2v2" fails; no
    record is written for "2v2" (the claim has one with [mapsNeeded = true]),
    the refresh reports an error, and "1v1" gets its record afterwards. *)
Lemma failed_query_is_not_recorded_as_needed :
  match run [SendListRequest; Settle 0 (Fulfilled [playlist1v1; playlist2v2]);
             ChecksDone 0 1 false; ChecksDone 0 0 true]
            (initialMachine sampleInventory) with
  | Some m =>
      downloadsRequired (store m) !! "2v2" = None /\
      downloadsRequired (store m) !! "1v1" = Some (recordFor sampleInventory playlist1v1) /\
      queueError (store m) = Some "Failed to retrieve available queues" /\
      Alert "Tachyon error: matchmaking/list" error ∈ calls m /\
      awaiting m = []
  | None => False
  end.
Proof. vm_compute. repeat split. in_calls. Qed.

Lemma playlistIds_delete (running : list Playlist.t) : forall (j : nat) (queue : Playlist.t),
  running !! j = Some queue ->
  playlistIds running = {[Playlist.id queue]} ∪ playlistIds (delete j running).
Proof.
  unfold playlistIds.
  induction running as [|p running IH]; intros j queue Hj; [done|].
  destruct j as [|j]; simpl in *.
  - by injection Hj as ->.
  - rewrite (IH j queue Hj). apply set_eq. set_unfold. tauto.
Qed.

Lemma delete_insert_same {A} (l : list A) : forall (i : nat) (x : A),
  delete i (<[i := x]> l) = delete i l.
Proof.
  induction l as [|a l IH]; intros i x; [done|].
  destruct i as [|i]; simpl; [done|]. by rewrite IH.
Qed.

Lemma validSchedule_0 (schedule : list (nat * bool)) :
  validSchedule 0 schedule -> schedule = [].
Proof. destruct schedule as [|[j answered] schedule]; [done|]. simpl. lia. Qed.

Section SetFacts.
Context (A B D ids : gset string) (x : string).

Lemma ids_last_sub : ids = {[x]} ∪ ∅ -> {[x]} ∪ B ⊆ B ∪ ids.
Proof. intros ->. set_unfold. tauto. Qed.

Lemma ids_last_eq : ids = {[x]} ∪ ∅ -> {[x]} ∪ B = B ∪ ids.
Proof. intros ->. apply set_eq. set_unfold. tauto. Qed.

Lemma ids_more_sub : ids = {[x]} ∪ D -> A ⊆ ({[x]} ∪ B) ∪ D -> A ⊆ B ∪ ids.
Proof. intros -> H y Hy. specialize (H y Hy). set_unfold. tauto. Qed.

Lemma ids_more_eq : ids = {[x]} ∪ D -> A = ({[x]} ∪ B) ∪ D -> A = B ∪ ids.
Proof. intros -> ->. apply set_eq. set_unfold. tauto. Qed.

Lemma ids_skip_sub : ids = {[x]} ∪ D -> A ⊆ B ∪ D -> A ⊆ B ∪ ids.
Proof. intros -> H y Hy. specialize (H y Hy). set_unfold. tauto. Qed.

Lemma ids_none_sub : B ⊆ B ∪ ids.
Proof. apply union_subseteq_l. Qed.
End SetFacts.

(** The callbacks of a refresh, run in the order of a schedule. *)
Lemma checks_run (i : nat) (schedule : list (nat * bool)) :
  forall (running : list Playlist.t) (settled : bool) (m : Machine),
  running <> [] ->
  awaiting m !! i = Some (AwaitChecks running settled) ->
  validSchedule (length running) schedule ->
  exists m',
    run (checkLabels i schedule) m = Some m' /\
    awaiting m' = delete i (awaiting m) /\
    playlists (store m') = playlists (store m) /\
    dom (downloadsRequired (store m')) ⊆ dom (downloadsRequired (store m)) ∪ playlistIds running /\
    (allAnswered schedule = true ->
     dom (downloadsRequired (store m')) = dom (downloadsRequired (store m)) ∪ playlistIds running /\
     (settled = false ->
      isLoadingQueues (store m') = false /\ queueError (store m') = queueError (store m))).
Proof.
  induction schedule as [|[j answered] schedule IH]; intros running settled m Hne Hi Hvalid.
  { simpl in Hvalid. by destruct running. }
  destruct Hvalid as [Hj Hvalid].
  destruct (lookup_lt_is_Some_2 running j Hj) as [queue Hqueue].
  pose proof (lookup_lt_Some _ _ _ Hi) as Hlt.
  pose proof (playlistIds_delete running j queue Hqueue) as Hids.
  assert (length (delete j running) = pred (length running)) as Hlen.
  { rewrite length_delete by (by eexists). lia. }
  cbn [checkLabels List.map run step fst snd].
  destruct answered.
  - rewrite (checksDone_answered i j running settled queue m Hi Hqueue). cbn zeta.
    destruct (delete j running) as [|q rest] eqn:Hrest.
    + simpl in Hlen. rewrite <- Hlen in Hvalid. apply validSchedule_0 in Hvalid as ->.
      eexists. split; [reflexivity|].
      assert (playlistIds [] = (∅ : gset string)) as Hnil by done.
      rewrite Hnil in Hids.
      destruct settled; simpl; rewrite dom_insert_L;
        (split; [done|]); (split; [done|]); (split; [by apply ids_last_sub|]);
        intros _; (split; [by apply ids_last_eq|done]).
    + set (m1 := suspendAgain i (AwaitChecks (q :: rest) settled) _).
      destruct (IH (q :: rest) settled m1) as (m' & Hrun & Hawait & Hps & Hsub & Hall).
      * done.
      * subst m1. simpl. by apply list_lookup_insert_eq.
      * by rewrite Hlen.
      * exists m'. split; [exact Hrun|]. subst m1. simpl in *.
        rewrite delete_insert_same in Hawait. rewrite dom_insert_L in Hsub, Hall.
        split; [done|]. split; [done|].
        split; [by eapply ids_more_sub|].
        intros Hans. destruct (Hall Hans) as [Hdom Hflags].
        split; [by eapply ids_more_eq|done].
  - destruct (decide (Playlist.maps queue = [])) as [Hnomaps|Hmaps].
    + (* no map, no query: the callback finishes as if answered *)
      assert (checksDone i j false m = checksDone i j true m) as ->.
      { unfold checksDone. rewrite Hi, Hqueue.
        unfold checkIfAnyMapsAreNeeded. by rewrite Hnomaps. }
      rewrite (checksDone_answered i j running settled queue m Hi Hqueue). cbn zeta.
      destruct (delete j running) as [|q rest] eqn:Hrest.
      * simpl in Hlen. rewrite <- Hlen in Hvalid. apply validSchedule_0 in Hvalid as ->.
        eexists. split; [reflexivity|].
        assert (playlistIds [] = (∅ : gset string)) as Hnil by done.
        rewrite Hnil in Hids.
        destruct settled; simpl; rewrite dom_insert_L;
          (split; [done|]); (split; [done|]); (split; [by apply ids_last_sub|]);
          intros Hans; discriminate Hans.
      * set (m1 := suspendAgain i (AwaitChecks (q :: rest) settled) _).
        destruct (IH (q :: rest) settled m1) as (m' & Hrun & Hawait & Hps & Hsub & Hall).
        -- done.
        -- subst m1. simpl. by apply list_lookup_insert_eq.
        -- by rewrite Hlen.
        -- exists m'. split; [exact Hrun|]. subst m1. simpl in *.
           rewrite delete_insert_same in Hawait. rewrite dom_insert_L in Hsub.
           split; [done|]. split; [done|]. split; [by eapply ids_more_sub|].
           intros Hans; discriminate Hans.
    + rewrite (checksDone_failed i j running settled queue m Hi Hqueue Hmaps). cbn zeta.
      destruct (delete j running) as [|q rest] eqn:Hrest.
      * simpl in Hlen. rewrite <- Hlen in Hvalid. apply validSchedule_0 in Hvalid as ->.
        eexists. split; [reflexivity|].
        destruct settled; simpl;
          (split; [done|]); (split; [done|]); (split; [apply ids_none_sub|]);
          intros Hans; discriminate Hans.
      * set (m1 := suspendAgain i (AwaitChecks (q :: rest) true) _).
        destruct (IH (q :: rest) true m1) as (m' & Hrun & Hawait & Hps & Hsub & Hall).
        -- done.
        -- subst m1. simpl. apply list_lookup_insert_eq. by destruct settled.
        -- by rewrite Hlen.
        -- exists m'. split; [exact Hrun|]. subst m1.
           destruct settled; simpl in *; rewrite delete_insert_same in Hawait;
             (split; [done|]); (split; [done|]); (split; [by eapply ids_skip_sub|]);
             intros Hans; discriminate Hans.
Qed.

(** C5, as the code has it: when the list arrives, the store gets the new
    playlists and an empty map of records at once, and the records are then
    written one by one, as the callback of each playlist finishes; the store
    is observable in between. Once the callbacks of the refresh have all
    finished, in whatever order and with no other refresh in between, every
    key of the map is the id of a playlist of the new list; if the database
    answered every query, the keys are exactly the ids of the new list and
    [isLoadingQueues] is false. *)
Theorem refresh_records_are_of_new_list (i : nat) (ps : list Playlist.t)
    (schedule : list (nat * bool)) (m : Machine) :
  awaiting m !! i = Some AwaitList ->
  validSchedule (length ps) schedule ->
  exists m1 m',
    step (Settle i (Fulfilled ps)) m = Some m1 /\
    playlists (store m1) = ps /\
    downloadsRequired (store m1) = ∅ /\
    run (checkLabels i schedule) m1 = Some m' /\
    awaiting m' = delete i (awaiting m) /\
    playlists (store m') = ps /\
    dom (downloadsRequired (store m')) ⊆ playlistIds ps /\
    (allAnswered schedule = true ->
     dom (downloadsRequired (store m')) = playlistIds ps /\
     isLoadingQueues (store m') = false).
Proof.
  intros Hi Hvalid. pose proof (lookup_lt_Some _ _ _ Hi) as Hlt.
  exists (sendListRequestResume i (Fulfilled ps) m).
  assert (step (Settle i (Fulfilled ps)) m = Some (sendListRequestResume i (Fulfilled ps) m))
    as Hstep by (simpl; unfold settle; by rewrite Hi).
  rewrite sendListRequestResume_fulfilled in *.
  destruct ps as [|p ps].
  - apply validSchedule_0 in Hvalid as ->. eexists. split; [exact Hstep|].
    simpl. repeat split; done.
  - set (m1 := suspendAgain i (AwaitChecks (p :: ps) false) _) in *.
    destruct (store_foldl_startChecks (p :: ps) (update (refreshStore (p :: ps)) m))
      as (Hstore & Hawaiting & _).
    assert (store m1 = refreshStore (p :: ps) (store m)) as Hstore1 by (subst m1; exact Hstore).
    assert (awaiting m1 = <[i := AwaitChecks (p :: ps) false]> (awaiting m)) as Hawaiting1
      by (subst m1; cbn [awaiting suspendAgain set_awaiting]; by rewrite Hawaiting).
    destruct (checks_run i schedule (p :: ps) false m1) as (m' & Hrun & Hawait & Hps & Hsub & Hall).
    + done.
    + rewrite Hawaiting1. by apply list_lookup_insert_eq.
    + done.
    + exists m'. rewrite Hstore1 in *. rewrite Hawaiting1, delete_insert_same in Hawait.
      rewrite playlists_refreshStore in *.
      assert (downloadsRequired (refreshStore (p :: ps) (store m)) = ∅) as Hempty by done.
      rewrite Hempty, dom_empty_L, (left_id_L ∅ (∪)) in Hsub, Hall.
      split; [exact Hstep|]. split; [done|]. split; [done|]. split; [exact Hrun|].
      split; [done|]. split; [done|]. split; [done|].
      intros Hans. destruct (Hall Hans) as [Hdom Hflags]. split; [done|]. by apply Hflags.
Qed.

Lemma refresh_records_are_of_new_list_witness :
  awaiting (sendListRequest (initialMachine sampleInventory)) !! 0 = Some AwaitList /\
  validSchedule (length [playlist1v1; playlist2v2]) [(1, true); (0, true)] /\
  exists m1 m',
    step (Settle 0 (Fulfilled [playlist1v1; playlist2v2]))
         (sendListRequest (initialMachine sampleInventory)) = Some m1 /\
    playlists (store m1) = [playlist1v1; playlist2v2] /\
    downloadsRequired (store m1) = ∅ /\
    run (checkLabels 0 [(1, true); (0, true)]) m1 = Some m' /\
    awaiting m' = delete 0 (awaiting (sendListRequest (initialMachine sampleInventory))) /\
    playlists (store m') = [playlist1v1; playlist2v2] /\
    dom (downloadsRequired (store m')) ⊆ playlistIds [playlist1v1; playlist2v2] /\
    (allAnswered [(1, true); (0, true)] = true ->
     dom (downloadsRequired (store m')) = playlistIds [playlist1v1; playlist2v2] /\
     isLoadingQueues (store m') = false).
Proof.
  split; [reflexivity|]. split; [simpl; lia|].
  apply (refresh_records_are_of_new_list 0 [playlist1v1; playlist2v2] [(1, true); (0, true)]
           (sendListRequest (initialMachine sampleInventory))).
  - reflexivity.
  - simpl. lia.
Defined.

(** C5, as stated, fails: between the arrival of a list of two playlists and
    the end of the refresh, the store shows the new playlists with no record,
    then with the record of one playlist only. *)
Lemma partial_records_are_observable :
  match run [SendListRequest; Settle 0 (Fulfilled [playlist1v1; playlist2v2])]
            (initialMachine sampleInventory) with
  | Some m1 =>
      playlists (store m1) = [playlist1v1; playlist2v2] /\
      isLoadingQueues (store m1) = true /\
      downloadsRequired (store m1) !! "1v1" = None /\
      downloadsRequired (store m1) !! "2v2" = None /\
      match run [ChecksDone 0 0 true] m1 with
      | Some m2 =>
          playlists (store m2) = [playlist1v1; playlist2v2] /\
          isLoadingQueues (store m2) = true /\
          downloadsRequired (store m2) !! "1v1" = Some (recordFor sampleInventory playlist1v1) /\
          downloadsRequired (store m2) !! "2v2" = None
      | None => False
      end
  | None => False
  end.
Proof. vm_compute. repeat split. Qed.

(** * Further properties *)

(** ** Display names *)

Lemma find_first_match {A} (f : A -> bool) (pre post : list A) (x : A) :
  Forall (fun y => f y = false) pre -> f x = true ->
  List.find f (pre ++ x :: post) = Some x.
Proof.
  intros Hpre Hx. induction Hpre as [|y pre Hy _ IH]; simpl.
  - by rewrite Hx.
  - by rewrite Hy.
Qed.

Lemma find_no_match {A} (f : A -> bool) (l : list A) :
  Forall (fun y => f y = false) l -> List.find f l = None.
Proof. intros Hl. induction Hl as [|y l Hy _ IH]; simpl; [done|]. by rewrite Hy. Qed.

(** X1: [getPlaylistName] shows the name of the first playlist of the list that
    has the given id, also when later playlists share the id, and falls back
    to the id itself when that name is empty. *)
Theorem getPlaylistName_first_match (id : string) (s : Store)
    (pre post : list Playlist.t) (p : Playlist.t) :
  playlists s = pre ++ p :: post ->
  Forall (fun q => Playlist.id q <> id) pre ->
  Playlist.id p = id ->
  getPlaylistName id s = if decide (Playlist.name p = "") then id else Playlist.name p.
Proof.
  intros Hps Hpre Hid. unfold getPlaylistName. rewrite Hps.
  rewrite (find_first_match _ pre post p).
  - destruct (String.eqb_spec (Playlist.name p) ""); by case_decide.
  - eapply Forall_impl; [exact Hpre|]. intros q Hq. by apply String.eqb_neq.
  - by apply String.eqb_eq.
Qed.

Lemma getPlaylistName_first_match_witness :
  getPlaylistName "1v1" (set_playlists [playlist2v2; playlist1v1; playlistUnnamed] initialStore)
  = "Duel".
Proof.
  apply (getPlaylistName_first_match "1v1"
           (set_playlists [playlist2v2; playlist1v1; playlistUnnamed] initialStore)
           [playlist2v2] [playlistUnnamed] playlist1v1).
  - reflexivity.
  - constructor; [discriminate|constructor].
  - reflexivity.
Defined.

(** X2: [getPlaylistName] gives back the id when no playlist of the list has
    it, and whatever the list holds, the label of a non-empty id is never
    empty. *)
Theorem getPlaylistName_unknown_or_nonempty (id : string) (s : Store) :
  (Forall (fun q => Playlist.id q <> id) (playlists s) -> getPlaylistName id s = id) /\
  (id <> "" -> getPlaylistName id s <> "").
Proof.
  split.
  - intros Hall. unfold getPlaylistName. rewrite find_no_match; [done|].
    eapply Forall_impl; [exact Hall|]. intros q Hq. by apply String.eqb_neq.
  - intros Hid. unfold getPlaylistName.
    destruct (List.find _ _) as [p|]; [|done].
    by destruct (String.eqb_spec (Playlist.name p) "").
Qed.

Lemma getPlaylistName_unknown_or_nonempty_witness :
  getPlaylistName "ffa" (set_playlists [playlist2v2; playlistUnnamed] initialStore) = "ffa" /\
  getPlaylistName "1v1" (set_playlists [playlist2v2; playlistUnnamed] initialStore) <> "".
Proof.
  split.
  - apply (getPlaylistName_unknown_or_nonempty "ffa"
             (set_playlists [playlist2v2; playlistUnnamed] initialStore)).
    repeat constructor; discriminate.
  - apply (getPlaylistName_unknown_or_nonempty "1v1"
             (set_playlists [playlist2v2; playlistUnnamed] initialStore)).
    discriminate.
Defined.

(** ** Readiness checks, continued *)

Lemma checkIfEngineIsNeeded_false (inv : Inventory) (engines : list Playlist.Engine) :
  checkIfEngineIsNeeded inv engines = false <->
  engines = [] \/ exists e, e ∈ engines /\ engineInstalled inv (Playlist.version e) = true.
Proof.
  unfold checkIfEngineIsNeeded. destruct engines as [|e0 engines]; [by split; [left|]|].
  cbn [length Nat.eqb]. rewrite negb_false_iff, existsb_exists. split.
  - intros (v & Hv & Hinst). right.
    apply list_elem_of_In, elem_of_List_map in Hv as (e & He & ->). by exists e.
  - intros [Hnil|(e & He & Hinst)]; [done|]. exists (Playlist.version e). split; [|done].
    apply list_elem_of_In, elem_of_List_map. by exists e.
Qed.

Lemma checkIfGameIsNeeded_false (inv : Inventory) (games : list Playlist.Game) :
  checkIfGameIsNeeded inv games = false <->
  games = [] \/ exists g, g ∈ games /\ gameInstalled inv (Playlist.springName g) = true.
Proof.
  unfold checkIfGameIsNeeded. destruct games as [|g0 games]; [by split; [left|]|].
  cbn [length Nat.eqb]. rewrite negb_false_iff, existsb_exists. split.
  - intros (v & Hv & Hinst). right.
    apply list_elem_of_In, elem_of_List_map in Hv as (g & Hg & ->). by exists g.
  - intros [Hnil|(g & Hg & Hinst)]; [done|]. exists (Playlist.springName g). split; [|done].
    apply list_elem_of_In, elem_of_List_map. by exists g.
Qed.

Lemma bool_eq_iff (a b : bool) : (a = true <-> b = true) -> a = b.
Proof. destruct a, b; intros [H1 H2]; try done; [by rewrite H1|by rewrite H2]. Qed.

Lemma bool_eq_iff_false (a b : bool) : (a = false <-> b = false) -> a = b.
Proof. destruct a, b; intros [H1 H2]; try done; [by rewrite H2|by rewrite H1]. Qed.

(** X3: without acceptable items nothing is needed, whatever the inventory
    holds. For maps this is decided before the database is asked: a playlist
    without maps makes no query when the list arrives, and its callback writes
    its record, with [mapsNeeded] false, even if the database fails. *)
Theorem nothing_needed_without_acceptable_items (i j : nat) (running : list Playlist.t)
    (settled answered : bool) (queue : Playlist.t) (m : Machine) :
  awaiting m !! i = Some (AwaitChecks running settled) ->
  running !! j = Some queue ->
  Playlist.maps queue = [] ->
  calls (startChecks m queue) = calls m /\
  (exists m',
      step (ChecksDone i j answered) m = Some m' /\
      downloadsRequired (store m') !! Playlist.id queue = Some (recordFor (inventory m) queue) /\
      mapsNeeded (recordFor (inventory m) queue) = false) /\
  (Playlist.engines queue = [] ->
   engineNeeded (recordFor (inventory m) queue) = false /\
   engineVersion (recordFor (inventory m) queue) = "") /\
  (Playlist.games queue = [] ->
   gameNeeded (recordFor (inventory m) queue) = false /\
   gameVersion (recordFor (inventory m) queue) = "").
Proof.
  intros Hi Hj Hmaps. split; [unfold startChecks; by rewrite Hmaps|]. split.
  - assert (checksDone i j answered m = checksDone i j true m) as Heq.
    { unfold checksDone. rewrite Hi, Hj. unfold checkIfAnyMapsAreNeeded. by rewrite Hmaps. }
    cbn [step]. rewrite Heq, (checksDone_answered i j running settled queue m Hi Hj). cbn zeta.
    eexists. split; [reflexivity|]. split.
    + destruct (delete j running), settled; cbn; by rewrite lookup_insert_eq.
    + unfold recordFor. by rewrite Hmaps.
  - split.
    + intros Hengines. unfold recordFor, firstEngineVersion. by rewrite Hengines.
    + intros Hgames. unfold recordFor, firstGameVersion. by rewrite Hgames.
Qed.

Lemma nothing_needed_without_acceptable_items_witness :
  match run [SendListRequest; Settle 0 (Fulfilled [playlistUnnamed; playlist2v2])]
            (initialMachine sampleInventory) with
  | Some m =>
      awaiting m !! 0 = Some (AwaitChecks [playlistUnnamed; playlist2v2] false) /\
      Playlist.maps playlistUnnamed = [] /\
      exists m',
        step (ChecksDone 0 0 false) m = Some m' /\
        downloadsRequired (store m') !! Playlist.id playlistUnnamed
        = Some (recordFor (inventory m) playlistUnnamed) /\
        mapsNeeded (recordFor (inventory m) playlistUnnamed) = false
  | None => False
  end.
Proof.
  destruct (run [SendListRequest; Settle 0 (Fulfilled [playlistUnnamed; playlist2v2])]
              (initialMachine sampleInventory)) as [m|] eqn:Hrun.
  - assert (awaiting m !! 0 = Some (AwaitChecks [playlistUnnamed; playlist2v2] false)) as Hi.
    { vm_compute in Hrun. by injection Hrun as <-. }
    split; [exact Hi|]. split; [reflexivity|].
    apply (nothing_needed_without_acceptable_items 0 0 [playlistUnnamed; playlist2v2]
             false false playlistUnnamed m Hi eq_refl eq_refl).
  - vm_compute in Hrun. discriminate Hrun.
Defined.

(** X4: the three checks depend only on which items are acceptable and which
    are installed: acceptable lists with the same elements, in any order and
    with any repetition, give the same answers under inventories that agree
    on what is installed. *)
Theorem readiness_depends_on_sets_only (inv inv' : Inventory)
    (maps maps' : list Playlist.Map) (engines engines' : list Playlist.Engine)
    (games games' : list Playlist.Game) :
  (forall m, m ∈ maps <-> m ∈ maps') ->
  (forall e, e ∈ engines <-> e ∈ engines') ->
  (forall g, g ∈ games <-> g ∈ games') ->
  (forall k, mapInstalled inv k = mapInstalled inv' k) ->
  (forall v, engineInstalled inv v = engineInstalled inv' v) ->
  (forall n, gameInstalled inv n = gameInstalled inv' n) ->
  checkIfAnyMapsAreNeeded (dbAnswers inv) maps = checkIfAnyMapsAreNeeded (dbAnswers inv') maps' /\
  checkIfEngineIsNeeded inv engines = checkIfEngineIsNeeded inv' engines' /\
  checkIfGameIsNeeded inv games = checkIfGameIsNeeded inv' games'.
Proof.
  intros Hmaps Hengines Hgames Hm He Hg. repeat split.
  - rewrite !checkIfAnyMapsAreNeeded_answered. f_equal. apply bool_eq_iff.
    rewrite !anyMapMissing_bulkGet. split.
    + intros (k & Hk & Hmiss). apply elem_of_List_map in Hk as (m & Hin & ->).
      exists (Playlist.mapName m). split; [apply elem_of_List_map; exists m; by rewrite <- Hmaps|].
      specialize (Hm (Playlist.mapName m)). unfold mapInstalled in Hm. by rewrite <- Hm.
    + intros (k & Hk & Hmiss). apply elem_of_List_map in Hk as (m & Hin & ->).
      exists (Playlist.mapName m). split; [apply elem_of_List_map; exists m; by rewrite Hmaps|].
      specialize (Hm (Playlist.mapName m)). unfold mapInstalled in Hm. by rewrite Hm.
  - apply bool_eq_iff_false. rewrite !checkIfEngineIsNeeded_false. split.
    + intros [->|(e & Hin & Hinst)].
      * left. destruct engines' as [|e engines']; [done|].
        exfalso. eapply not_elem_of_nil, Hengines. by left.
      * right. exists e. by rewrite <- Hengines, <- He.
    + intros [->|(e & Hin & Hinst)].
      * left. destruct engines as [|e engines]; [done|].
        exfalso. eapply not_elem_of_nil, Hengines. by left.
      * right. exists e. by rewrite Hengines, He.
  - apply bool_eq_iff_false. rewrite !checkIfGameIsNeeded_false. split.
    + intros [->|(g & Hin & Hinst)].
      * left. destruct games' as [|g games']; [done|].
        exfalso. eapply not_elem_of_nil, Hgames. by left.
      * right. exists g. by rewrite <- Hgames, <- Hg.
    + intros [->|(g & Hin & Hinst)].
      * left. destruct games as [|g games]; [done|].
        exfalso. eapply not_elem_of_nil, Hgames. by left.
      * right. exists g. by rewrite Hgames, Hg.
Qed.

Lemma readiness_depends_on_sets_only_witness :
  checkIfAnyMapsAreNeeded (dbAnswers sampleInventory) [mapA; mapB]
  = checkIfAnyMapsAreNeeded (dbAnswers sampleInventory) [mapB; mapA; mapB] /\
  checkIfEngineIsNeeded sampleInventory [ {| Playlist.version := "e1" |} ]
  = checkIfEngineIsNeeded sampleInventory
      [ {| Playlist.version := "e1" |}; {| Playlist.version := "e1" |} ] /\
  checkIfGameIsNeeded sampleInventory [] = checkIfGameIsNeeded sampleInventory [].
Proof.
  apply (readiness_depends_on_sets_only sampleInventory sampleInventory); try done.
  - intros m. rewrite !elem_of_cons, !elem_of_nil. tauto.
  - intros e. rewrite !elem_of_cons, !elem_of_nil. tauto.
Defined.

(** X5: installing content never makes a playlist need more: if everything
    installed in one inventory is installed in another, whatever is not needed
    under the first is not needed under the second. *)
Theorem readiness_monotone_in_inventory (inv inv' : Inventory)
    (maps : list Playlist.Map) (engines : list Playlist.Engine) (games : list Playlist.Game) :
  (forall k, mapInstalled inv k = true -> mapInstalled inv' k = true) ->
  (forall v, engineInstalled inv v = true -> engineInstalled inv' v = true) ->
  (forall n, gameInstalled inv n = true -> gameInstalled inv' n = true) ->
  (checkIfAnyMapsAreNeeded (dbAnswers inv) maps = Fulfilled false ->
   checkIfAnyMapsAreNeeded (dbAnswers inv') maps = Fulfilled false) /\
  (checkIfEngineIsNeeded inv engines = false -> checkIfEngineIsNeeded inv' engines = false) /\
  (checkIfGameIsNeeded inv games = false -> checkIfGameIsNeeded inv' games = false).
Proof.
  intros Hm He Hg. repeat split.
  - rewrite !checkIfAnyMapsAreNeeded_answered. intros H. injection H as H. f_equal.
    destruct (anyMapMissing (bulkGet (db_maps inv') _)) eqn:Hmiss; [|done].
    apply anyMapMissing_bulkGet in Hmiss as (k & Hk & Hmiss).
    assert (anyMapMissing (bulkGet (db_maps inv) (List.map Playlist.mapName maps)) = true)
      as Htrue; [|congruence].
    apply anyMapMissing_bulkGet. exists k. split; [done|].
    specialize (Hm k). unfold mapInstalled in Hm.
    destruct (match db_maps inv !! k with Some row => isInstalled row | None => false end);
      [|done].
    rewrite Hm in Hmiss; done.
  - rewrite !checkIfEngineIsNeeded_false. intros [->|(e & Hin & Hinst)]; [by left|].
    right. exists e. split; [done|]. by apply He.
  - rewrite !checkIfGameIsNeeded_false. intros [->|(g & Hin & Hinst)]; [by left|].
    right. exists g. split; [done|]. by apply Hg.
Qed.

Lemma readiness_monotone_in_inventory_witness :
  checkIfAnyMapsAreNeeded (dbAnswers sampleInventory) [mapA] = Fulfilled false /\
  checkIfAnyMapsAreNeeded (dbAnswers fullerInventory) [mapA] = Fulfilled false.
Proof.
  split; [reflexivity|].
  apply (readiness_monotone_in_inventory sampleInventory fullerInventory [mapA] [] []).
  - intros k. unfold mapInstalled, fullerInventory. simpl.
    destruct (decide (k = "B")) as [->|Hk].
    + by rewrite lookup_insert_eq.
    + rewrite (lookup_insert_ne _ "B" k); [done|]. intros Heq. apply Hk. by symmetry.
  - intros v. unfold engineInstalled. rewrite !bool_decide_eq_true. simpl.
    rewrite !elem_of_cons. tauto.
  - intros n. unfold gameInstalled. rewrite !bool_decide_eq_true. simpl.
    rewrite elem_of_union. tauto.
  - reflexivity.
Defined.

(** ** Commands and their outcomes *)

Lemma settle_last (a : Awaiting) (response : Settled (list Playlist.t)) (m : Machine) :
  settle (length (awaiting m)) response (suspend a m)
  = match a with
    | AwaitQueue => Some (sendQueueRequestResume (length (awaiting m)) response (suspend a m))
    | AwaitCancel => Some (sendCancelRequestResume (length (awaiting m)) response (suspend a m))
    | AwaitReady => Some (sendReadyRequestResume (length (awaiting m)) response (suspend a m))
    | AwaitList => Some (sendListRequestResume (length (awaiting m)) response (suspend a m))
    | AwaitDownload battle stage =>
        Some (downloadResume (length (awaiting m)) battle stage response (suspend a m))
    | AwaitChecks _ _ => None
    end.
Proof. unfold settle. by rewrite lookup_suspended. Qed.



(** X7: when the selected queue has a record, the queue command asks the
    server for exactly that queue; if the request is fulfilled the status is
    [Searching] and no error message is left, if it is rejected the status is
    back to [Idle], an error message is stored and an error alert raised. In
    both cases the command has finished, and the test download it started goes
    on. *)
Theorem sendQueueRequest_outcomes (m : Machine) (record : DownloadsRequired)
    (response : Settled (list Playlist.t)) :
  downloadsRequired (store m) !! selectedQueue (store m) = Some record ->
  exists m',
    run [SendQueueRequest; Settle (length (awaiting m)) response] m = Some m' /\
    awaiting m' = awaiting m /\
    intervals m' = intervals m ++ [noProgress] /\
    status (store m') = (if isFulfilled response then Searching else Idle) /\
    errorMessage (store m')
    = (if isFulfilled response then None else Some "Error with matchmaking/queue") /\
    calls m'
    = calls m ++ [SetInterval; Request (MatchmakingQueue [selectedQueue (store m)])] ++
      (if isFulfilled response then [] else [Alert "Tachyon error: matchmaking/queue" error]).
Proof.
  intros Hrecord. cbn [run step]. unfold sendQueueRequest. rewrite Hrecord.
  set (m1 := call _ (update (set_errorMessage None) (update (set_status JoinRequested)
               (downloadBattleContent testBattle m)))).
  assert (length (awaiting m) = length (awaiting m1)) as Hlen by done.
  rewrite Hlen, settle_last. eexists. split; [reflexivity|].
  destruct response; cbn; rewrite delete_last, <- ?app_assoc; by repeat split.
Qed.

Lemma sendQueueRequest_outcomes_witness :
  match run [SendListRequest; Settle 0 (Fulfilled [playlist1v1]); ChecksDone 0 0 true]
            (initialMachine sampleInventory) with
  | Some m =>
      downloadsRequired (store m) !! selectedQueue (store m)
      = Some (recordFor sampleInventory playlist1v1) /\
      exists m',
        run [SendQueueRequest; Settle (length (awaiting m)) Rejected] m = Some m' /\
        awaiting m' = awaiting m /\
        intervals m' = intervals m ++ [noProgress] /\
        status (store m') = Idle /\
        errorMessage (store m') = Some "Error with matchmaking/queue" /\
        calls m'
        = calls m ++ [SetInterval; Request (MatchmakingQueue [selectedQueue (store m)])] ++
          [Alert "Tachyon error: matchmaking/queue" error]
  | None => False
  end.
Proof.
  destruct (run [SendListRequest; Settle 0 (Fulfilled [playlist1v1]); ChecksDone 0 0 true]
              (initialMachine sampleInventory)) as [m|] eqn:Hrun; [|discriminate].
  assert (downloadsRequired (store m) !! selectedQueue (store m)
          = Some (recordFor sampleInventory playlist1v1)) as Hrecord.
  { vm_compute in Hrun. injection Hrun as <-. reflexivity. }
  split; [exact Hrecord|].
  apply (sendQueueRequest_outcomes m (recordFor sampleInventory playlist1v1) Rejected Hrecord).
Defined.

(** X8: the ready command sets the status to [MatchAccepted] at once; a
    fulfilled request changes nothing more, a rejected one brings the status
    to [Idle], stores an error message and raises an error alert. It touches
    neither the battle nor the progress, and starts no download. *)
Theorem sendReadyRequest_outcomes (m : Machine) (response : Settled (list Playlist.t)) :
  status (store (sendReadyRequest m)) = MatchAccepted /\
  exists m',
    run [SendReadyRequest; Settle (length (awaiting m)) response] m = Some m' /\
    awaiting m' = awaiting m /\
    intervals m' = intervals m /\
    status (store m') = (if isFulfilled response then MatchAccepted else Idle) /\
    errorMessage (store m')
    = (if isFulfilled response then errorMessage (store m)
       else Some "Error with matchmaking/ready") /\
    currentBattle (store m') = currentBattle (store m) /\
    downloadProgress (store m') = downloadProgress (store m) /\
    calls m'
    = calls m ++ [Request MatchmakingReady] ++
      (if isFulfilled response then [] else [Alert "Tachyon error: matchmaking/ready" error]).
Proof.
  split; [reflexivity|]. cbn [run step]. unfold sendReadyRequest.
  set (m1 := call _ (update (set_status MatchAccepted) m)).
  assert (length (awaiting m) = length (awaiting m1)) as Hlen by done.
  rewrite Hlen, settle_last. eexists. split; [reflexivity|].
  destruct response; cbn; rewrite delete_last, <- ?app_assoc; by repeat split.
Qed.

(** X9: a rejected list request leaves the playlists, the selection and the
    readiness records as they were; it stores the queue error, raises an
    error alert and ends with [isLoadingQueues] false. *)
Theorem sendListRequest_rejected (m : Machine) :
  exists m',
    run [SendListRequest; Settle (length (awaiting m)) Rejected] m = Some m' /\
    awaiting m' = awaiting m /\
    playlists (store m') = playlists (store m) /\
    selectedQueue (store m') = selectedQueue (store m) /\
    downloadsRequired (store m') = downloadsRequired (store m) /\
    status (store m') = status (store m) /\
    queueError (store m') = Some "Failed to retrieve available queues" /\
    isLoadingQueues (store m') = false /\
    calls m' = calls m ++ [Request MatchmakingList; Alert "Tachyon error: matchmaking/list" error].
Proof.
  cbn [run step]. unfold sendListRequest.
  set (m1 := call _ (update (set_queueError None) (update (set_isLoadingQueues true) m))).
  assert (length (awaiting m) = length (awaiting m1)) as Hlen by done.
  rewrite Hlen, settle_last. eexists. split; [reflexivity|].
  cbn. rewrite delete_last, <- ?app_assoc. by repeat split.
Qed.

(** ** The refresh as a whole *)

Lemma existsb_id_elem_of (id : string) (ps : list Playlist.t) :
  existsb (fun playlist => (Playlist.id playlist =? id)%string) ps = true <->
  id ∈ List.map Playlist.id ps.
Proof.
  rewrite existsb_exists, elem_of_List_map. split.
  - intros (p & Hp & Heq). exists p. split; [by apply list_elem_of_In|].
    symmetry. by apply String.eqb_eq.
  - intros (p & Hp & ->). exists p. split; [by apply list_elem_of_In|]. apply String.eqb_refl.
Qed.

Lemma selectedQueue_refreshStore (ps : list Playlist.t) (s : Store) :
  selectedQueue (refreshStore ps s)
  = match ps with
    | [] => selectedQueue s
    | p :: _ =>
        if decide (selectedQueue s ∈ List.map Playlist.id ps)
        then selectedQueue s else Playlist.id p
    end.
Proof.
  unfold refreshStore, defaultSelectedQueue. cbn [playlists set_playlists selectedQueue].
  destruct ps as [|p ps]; [done|].
  destruct (existsb _ (p :: ps)) eqn:Hex; cbn [negb].
  - apply existsb_id_elem_of in Hex. by rewrite decide_True.
  - rewrite decide_False; [done|]. intros Hin. apply existsb_id_elem_of in Hin. congruence.
Qed.

Lemma store_sendListRequestResume (i : nat) (ps : list Playlist.t) (m : Machine) :
  store (sendListRequestResume i (Fulfilled ps) m)
  = match ps with
    | [] => set_isLoadingQueues false (refreshStore [] (store m))
    | _ => refreshStore ps (store m)
    end.
Proof.
  rewrite sendListRequestResume_fulfilled. destruct ps as [|p ps]; [done|].
  cbn [store suspendAgain set_awaiting].
  by destruct (store_foldl_startChecks (p :: ps) (update (refreshStore (p :: ps)) m)) as (-> & _).
Qed.

(** X10: when the list arrives, the selection is kept if a playlist of the new
    list has that id, and becomes the id of the first playlist otherwise; an
    empty list leaves it as it is. After a non-empty list has arrived the
    selection is therefore always the id of one of its playlists. *)
Theorem selection_follows_the_list (i : nat) (ps : list Playlist.t) (m : Machine) :
  awaiting m !! i = Some AwaitList ->
  exists m1,
    step (Settle i (Fulfilled ps)) m = Some m1 /\
    (ps = [] -> selectedQueue (store m1) = selectedQueue (store m)) /\
    (selectedQueue (store m) ∈ List.map Playlist.id ps ->
     selectedQueue (store m1) = selectedQueue (store m)) /\
    (forall p rest, ps = p :: rest ->
     selectedQueue (store m) ∉ List.map Playlist.id ps ->
     selectedQueue (store m1) = Playlist.id p) /\
    (ps <> [] -> selectedQueue (store m1) ∈ List.map Playlist.id ps).
Proof.
  intros Hi. exists (sendListRequestResume i (Fulfilled ps) m).
  split; [simpl; unfold settle; by rewrite Hi|].
  rewrite store_sendListRequestResume.
  assert (selectedQueue (match ps with
                         | [] => set_isLoadingQueues false (refreshStore [] (store m))
                         | _ => refreshStore ps (store m)
                         end) = selectedQueue (refreshStore ps (store m))) as ->
    by (by destruct ps).
  rewrite selectedQueue_refreshStore. repeat split.
  - by intros ->.
  - intros Hin. destruct ps as [|p ps]; [done|]. by rewrite decide_True.
  - intros p rest -> Hnot. by rewrite decide_False.
  - intros Hne. destruct ps as [|p ps]; [done|]. case_decide; [done|]. by left.
Qed.

Lemma selection_follows_the_list_witness :
  awaiting (sendListRequest (initialMachine sampleInventory)) !! 0 = Some AwaitList /\
  exists m1,
    step (Settle 0 (Fulfilled [playlist2v2])) (sendListRequest (initialMachine sampleInventory))
    = Some m1 /\
    selectedQueue (store m1) = "2v2".
Proof.
  split; [reflexivity|].
  destruct (selection_follows_the_list 0 [playlist2v2]
              (sendListRequest (initialMachine sampleInventory)) eq_refl)
    as (m1 & Hstep & _ & _ & Hfirst & _).
  exists m1. split; [exact Hstep|].
  apply (Hfirst playlist2v2 []); [reflexivity|].
  simpl. rewrite elem_of_cons, elem_of_nil. intros [Heq|[]]. discriminate Heq.
Defined.

(** What one finishing callback does to the rest of the machine: [m0] is the
    machine before the suspended function is updated, [settled'] tells whether
    [Promise.all] has rejected by then. *)
Lemma checksDone_cases (i j : nat) (answered : bool) (running : list Playlist.t)
    (settled : bool) (queue : Playlist.t) (m : Machine) :
  awaiting m !! i = Some (AwaitChecks running settled) ->
  running !! j = Some queue ->
  exists m0 settled',
    checksDone i j answered m
    = Some (match delete j running with
            | [] => finish i m0
            | rest => suspendAgain i (AwaitChecks rest settled') m0
            end) /\
    awaiting m0 = awaiting m /\
    inventory m0 = inventory m /\
    intervals m0 = intervals m /\
    selectedQueue (store m0) = selectedQueue (store m) /\
    playlists (store m0) = playlists (store m) /\
    status (store m0) = status (store m) /\
    currentBattle (store m0) = currentBattle (store m) /\
    downloadProgress (store m0) = downloadProgress (store m) /\
    ((settled = true -> isLoadingQueues (store m) = false) ->
     (settled' = true -> isLoadingQueues (store m0) = false) /\
     (delete j running = [] -> isLoadingQueues (store m0) = false)) /\
    (answered = true ->
     settled' = settled /\
     calls m0 = calls m /\
     queueError (store m0) = queueError (store m) /\
     downloadsRequired (store m0)
     = <[Playlist.id queue := recordFor (inventory m) queue]> (downloadsRequired (store m))).
Proof.
  intros Hi Hj.
  destruct (decide (answered = true \/ Playlist.maps queue = [])) as [Hwritten|Hfailed].
  - assert (checksDone i j answered m = checksDone i j true m) as ->.
    { destruct Hwritten as [->|Hnomaps]; [done|].
      unfold checksDone. rewrite Hi, Hj. unfold checkIfAnyMapsAreNeeded. by rewrite Hnomaps. }
    rewrite (checksDone_answered i j running settled queue m Hi Hj). cbn zeta.
    set (m1 := update _ m).
    exists (match delete j running with
            | [] => if settled then m1 else sendListRequestFinally m1
            | _ => m1
            end), settled.
    split; [by destruct (delete j running)|].
    destruct (delete j running) as [|q rest], settled; cbn; repeat split; try done;
      try (intros H; by apply H); try (intros _; by apply H).
  - assert (answered = false) as ->
      by (destruct answered; [exfalso; apply Hfailed; by left|done]).
    assert (Playlist.maps queue <> []) as Hmaps by (intros H; apply Hfailed; by right).
    rewrite (checksDone_failed i j running settled queue m Hi Hj Hmaps). cbn zeta.
    exists (if settled then m else sendListRequestFinally (sendListRequestCatch m)), true.
    split; [by destruct (delete j running)|].
    destruct settled; cbn; repeat split; try done;
      try (intros H; by apply H); try (intros _; by apply H).
Qed.

Lemma elem_of_delete_split {A} (l : list A) : forall (j : nat) (x y : A),
  l !! j = Some x -> (y ∈ l <-> y = x \/ y ∈ delete j l).
Proof.
  induction l as [|a l IH]; intros j x y Hj; [done|].
  destruct j as [|j]; simpl in *.
  - injection Hj as ->. apply elem_of_cons.
  - rewrite !elem_of_cons, (IH j x y Hj). tauto.
Qed.

Lemma NoDup_ids_delete (running : list Playlist.t) : forall (j : nat) (queue : Playlist.t),
  running !! j = Some queue ->
  NoDup (List.map Playlist.id running) ->
  (Playlist.id queue ∉ List.map Playlist.id (delete j running)) /\
  NoDup (List.map Playlist.id (delete j running)).
Proof.
  induction running as [|p running IH]; intros j queue Hj Hnodup; [done|].
  simpl in Hnodup. apply NoDup_cons in Hnodup as [Hp Hnodup].
  destruct j as [|j]; simpl in *.
  - by injection Hj as ->.
  - destruct (IH j queue Hj Hnodup) as [Hnotin Hnodup']. split.
    + rewrite elem_of_cons. intros [Heq|Hin]; [|done].
      apply Hp. rewrite <- Heq. apply elem_of_List_map. exists queue. split; [|done].
      by eapply list_elem_of_lookup_2.
    + apply NoDup_cons. split; [|done]. intros Hin. apply Hp.
      apply elem_of_List_map in Hin as (q & Hq & ->). apply elem_of_List_map. exists q.
      split; [|done]. destruct (running !! j) as [x|] eqn:Hx; [|done].
      apply (elem_of_delete_split running j x q Hx). by right.
Qed.

(** The callbacks of a refresh, run in the order of a schedule: what they
    leave alone and what they write. *)
Lemma checks_run_records (i : nat) (schedule : list (nat * bool)) :
  forall (running : list Playlist.t) (settled : bool) (m : Machine),
  running <> [] ->
  awaiting m !! i = Some (AwaitChecks running settled) ->
  validSchedule (length running) schedule ->
  exists m',
    run (checkLabels i schedule) m = Some m' /\
    inventory m' = inventory m /\
    intervals m' = intervals m /\
    selectedQueue (store m') = selectedQueue (store m) /\
    status (store m') = status (store m) /\
    currentBattle (store m') = currentBattle (store m) /\
    downloadProgress (store m') = downloadProgress (store m) /\
    ((settled = true -> isLoadingQueues (store m) = false) ->
     isLoadingQueues (store m') = false) /\
    (allAnswered schedule = true ->
     calls m' = calls m /\
     queueError (store m') = queueError (store m) /\
     (forall k, k ∉ List.map Playlist.id running ->
      downloadsRequired (store m') !! k = downloadsRequired (store m) !! k) /\
     (NoDup (List.map Playlist.id running) ->
      forall q, q ∈ running ->
      downloadsRequired (store m') !! Playlist.id q = Some (recordFor (inventory m) q))).
Proof.
  induction schedule as [|[j answered] schedule IH]; intros running settled m Hne Hi Hvalid.
  { simpl in Hvalid. by destruct running. }
  destruct Hvalid as [Hj Hvalid].
  destruct (lookup_lt_is_Some_2 running j Hj) as [queue Hqueue].
  pose proof (lookup_lt_Some _ _ _ Hi) as Hlt.
  assert (length (delete j running) = pred (length running)) as Hlen.
  { rewrite length_delete by (by eexists). lia. }
  destruct (checksDone_cases i j answered running settled queue m Hi Hqueue)
    as (m0 & settled' & Hstep & Haw & Hinv & Hint & Hsel & Hps & Hst & Hcb & Hdp & Hload & Hans).
  cbn [checkLabels List.map run step fst snd]. rewrite Hstep.
  destruct (delete j running) as [|q0 rest] eqn:Hrest.
  - simpl in Hlen. rewrite <- Hlen in Hvalid. apply validSchedule_0 in Hvalid as ->.
    eexists. split; [reflexivity|]. cbn [finish store inventory intervals calls set_awaiting].
    do 6 (split; [done|]). split; [intros H; by apply Hload|].
    cbn [allAnswered forallb snd]. rewrite andb_true_r. intros ->.
    destruct (Hans eq_refl) as (_ & Hcalls & Hqe & Hdr). rewrite Hdr.
    split; [done|]. split; [done|]. split.
    + intros k Hk. rewrite lookup_insert_ne; [done|]. intros <-. apply Hk.
      apply elem_of_List_map. exists queue. split; [|done]. by eapply list_elem_of_lookup_2.
    + intros _ q Hq. apply (elem_of_delete_split running j queue q Hqueue) in Hq.
      rewrite Hrest in Hq. destruct Hq as [->|Hq]; [|by apply elem_of_nil in Hq].
      by rewrite lookup_insert_eq.
  - set (m1 := suspendAgain i (AwaitChecks (q0 :: rest) settled') m0).
    destruct (IH (q0 :: rest) settled' m1)
      as (m' & Hrun & Hinv' & Hint' & Hsel' & Hst' & Hcb' & Hdp' & Hload' & Hans').
    + done.
    + subst m1. simpl. rewrite Haw. by apply list_lookup_insert_eq.
    + by rewrite Hlen.
    + exists m'. split; [exact Hrun|]. subst m1.
      cbn [suspendAgain store inventory intervals calls set_awaiting] in *.
      split; [congruence|]. split; [congruence|]. split; [congruence|].
      split; [congruence|]. split; [congruence|]. split; [congruence|].
      split; [intros H; apply Hload', (Hload H)|].
      cbn [allAnswered forallb snd]. intros Hall. apply andb_true_iff in Hall as [-> Hall].
      destruct (Hans eq_refl) as (_ & Hcalls & Hqe & Hdr).
      destruct (Hans' Hall) as (Hcalls' & Hqe' & Hother & Hrecords).
      rewrite Hinv in Hrecords. split; [congruence|]. split; [congruence|]. split.
      * intros k Hk. rewrite Hother, Hdr.
        -- rewrite lookup_insert_ne; [done|]. intros <-. apply Hk.
           apply elem_of_List_map. exists queue. split; [|done].
           by eapply list_elem_of_lookup_2.
        -- intros Hin. apply Hk. apply elem_of_List_map in Hin as (q & Hq & ->).
           apply elem_of_List_map. exists q. split; [|done].
           apply (elem_of_delete_split running j queue q Hqueue). right. by rewrite Hrest.
      * intros Hnodup q Hq.
        destruct (NoDup_ids_delete running j queue Hqueue Hnodup) as [Hnotin Hnodup'].
        rewrite Hrest in Hnotin, Hnodup'.
        apply (elem_of_delete_split running j queue q Hqueue) in Hq.
        rewrite Hrest in Hq. destruct Hq as [->|Hq].
        -- rewrite (Hother _ Hnotin), Hdr. by rewrite lookup_insert_eq.
        -- by apply Hrecords.
Qed.

Lemma currentBattle_refreshStore (ps : list Playlist.t) (s : Store) :
  currentBattle (refreshStore ps s) = currentBattle s.
Proof.
  unfold refreshStore, defaultSelectedQueue. simpl. destruct ps as [|p ps]; [done|].
  by destruct (negb _).
Qed.

Lemma downloadProgress_refreshStore (ps : list Playlist.t) (s : Store) :
  downloadProgress (refreshStore ps s) = downloadProgress s.
Proof.
  unfold refreshStore, defaultSelectedQueue. simpl. destruct ps as [|p ps]; [done|].
  by destruct (negb _).
Qed.

Lemma queueError_refreshStore (ps : list Playlist.t) (s : Store) :
  queueError (refreshStore ps s) = queueError s.
Proof.
  unfold refreshStore, defaultSelectedQueue. simpl. destruct ps as [|p ps]; [done|].
  by destruct (negb _).
Qed.

(** The whole of a refresh whose list is not empty: the arrival of the list,
    then the callbacks in the order of a schedule. *)
Lemma refresh_run (i : nat) (p : Playlist.t) (ps : list Playlist.t)
    (schedule : list (nat * bool)) (m : Machine) :
  awaiting m !! i = Some AwaitList ->
  validSchedule (length (p :: ps)) schedule ->
  exists m1 m',
    step (Settle i (Fulfilled (p :: ps))) m = Some m1 /\
    store m1 = refreshStore (p :: ps) (store m) /\
    inventory m1 = inventory m /\
    intervals m1 = intervals m /\
    awaiting m1 !! i = Some (AwaitChecks (p :: ps) false) /\
    run (checkLabels i schedule) m1 = Some m' /\
    awaiting m' = delete i (awaiting m).
Proof.
  intros Hi Hvalid. pose proof (lookup_lt_Some _ _ _ Hi) as Hlt.
  exists (sendListRequestResume i (Fulfilled (p :: ps)) m).
  assert (step (Settle i (Fulfilled (p :: ps))) m
          = Some (sendListRequestResume i (Fulfilled (p :: ps)) m)) as Hstep
    by (simpl; unfold settle; by rewrite Hi).
  pose proof (store_sendListRequestResume i (p :: ps) m) as Hstore.
  rewrite sendListRequestResume_fulfilled in *.
  set (m1 := suspendAgain i (AwaitChecks (p :: ps) false) _) in *.
  destruct (store_foldl_startChecks (p :: ps) (update (refreshStore (p :: ps)) m))
    as (_ & Hawaiting & Hintervals & Hinventory).
  assert (awaiting m1 = <[i := AwaitChecks (p :: ps) false]> (awaiting m)) as Hawaiting1
    by (subst m1; cbn [awaiting suspendAgain set_awaiting]; by rewrite Hawaiting).
  assert (awaiting m1 !! i = Some (AwaitChecks (p :: ps) false)) as Hi1
    by (rewrite Hawaiting1; by apply list_lookup_insert_eq).
  destruct (checks_run i schedule (p :: ps) false m1) as (m' & Hrun & Hawait & _); try done.
  exists m'. rewrite Hawaiting1, delete_insert_same in Hawait.
  split; [exact Hstep|]. split; [exact Hstore|]. split; [exact Hinventory|].
  split; [exact Hintervals|]. by repeat split.
Qed.

(** X11: a refresh never touches the session or the download: whatever the
    list, the order in which the callbacks finish and the queries that fail,
    the command ends with [isLoadingQueues] false, with the new playlists in
    the store, and with the status, the battle, the progress and the timers as
    it found them; if every query was answered it leaves no queue error. *)
Theorem refresh_always_finishes (ps : list Playlist.t) (schedule : list (nat * bool))
    (m : Machine) :
  validSchedule (length ps) schedule ->
  exists m',
    run (SendListRequest :: Settle (length (awaiting m)) (Fulfilled ps)
           :: checkLabels (length (awaiting m)) schedule) m = Some m' /\
    awaiting m' = awaiting m /\
    isLoadingQueues (store m') = false /\
    playlists (store m') = ps /\
    status (store m') = status (store m) /\
    currentBattle (store m') = currentBattle (store m) /\
    downloadProgress (store m') = downloadProgress (store m) /\
    intervals m' = intervals m /\
    (allAnswered schedule = true -> queueError (store m') = None).
Proof.
  intros Hvalid. set (i := length (awaiting m)).
  assert (awaiting (sendListRequest m) !! i = Some AwaitList) as Hi
    by apply (lookup_suspended AwaitList).
  assert (delete i (awaiting (sendListRequest m)) = awaiting m) as Hdel
    by apply delete_last.
  change (run (SendListRequest :: ?ls) m) with (run ls (sendListRequest m)).
  destruct ps as [|p ps].
  - apply validSchedule_0 in Hvalid as ->. cbn [checkLabels List.map run step].
    unfold settle. rewrite Hi. eexists. split; [reflexivity|].
    rewrite sendListRequestResume_fulfilled. subst i. cbn.
    rewrite delete_last. by repeat split.
  - destruct (refresh_run i p ps schedule (sendListRequest m) Hi Hvalid)
      as (m1 & m' & Hstep & Hstore & Hinv & Hint & Hi1 & Hrun & Hawait).
    destruct (checks_run_records i schedule (p :: ps) false m1)
      as (m'' & Hrun' & _ & Hint' & _ & Hst & Hcb & Hdp & Hload & Hans); try done.
    destruct (checks_run i schedule (p :: ps) false m1) as (m3 & Hrun3 & _ & Hps & _);
      try done.
    assert (m'' = m') as -> by congruence. assert (m3 = m') as -> by congruence.
    exists m'. cbn [run]. rewrite Hstep. split; [exact Hrun|].
    rewrite Hstore in *. rewrite status_refreshStore in Hst.
    rewrite playlists_refreshStore in Hps.
    rewrite currentBattle_refreshStore in Hcb. rewrite downloadProgress_refreshStore in Hdp.
    split; [rewrite Hawait; exact Hdel|]. split; [apply Hload; intros H; discriminate H|].
    split; [exact Hps|]. split; [exact Hst|]. split; [exact Hcb|]. split; [exact Hdp|].
    split; [rewrite Hint', Hint; reflexivity|].
    intros Hall. destruct (Hans Hall) as (_ & Hqe & _).
    rewrite Hqe. apply queueError_refreshStore.
Qed.

Lemma refresh_always_finishes_witness :
  validSchedule (length [playlist1v1; playlist2v2]) [(1, false); (0, true)] /\
  exists m',
    run (SendListRequest :: Settle 0 (Fulfilled [playlist1v1; playlist2v2])
           :: checkLabels 0 [(1, false); (0, true)]) (initialMachine sampleInventory) = Some m' /\
    awaiting m' = [] /\
    isLoadingQueues (store m') = false.
Proof.
  split; [simpl; lia|].
  destruct (refresh_always_finishes [playlist1v1; playlist2v2] [(1, false); (0, true)]
              (initialMachine sampleInventory)) as (m' & Hrun & Hawait & Hload & _).
  - simpl. lia.
  - by exists m'.
Defined.

(** X12: with distinct playlist ids and every query answered, the order in
    which the callbacks finish does not matter: every schedule leaves the same
    readiness records, one for each playlist of the list, computed from that
    playlist, and none for any other key. *)
Theorem records_do_not_depend_on_order (i : nat) (ps : list Playlist.t)
    (schedule schedule' : list (nat * bool)) (m : Machine) :
  awaiting m !! i = Some AwaitList ->
  NoDup (List.map Playlist.id ps) ->
  validSchedule (length ps) schedule -> allAnswered schedule = true ->
  validSchedule (length ps) schedule' -> allAnswered schedule' = true ->
  exists m1 m2,
    run (Settle i (Fulfilled ps) :: checkLabels i schedule) m = Some m1 /\
    run (Settle i (Fulfilled ps) :: checkLabels i schedule') m = Some m2 /\
    downloadsRequired (store m1) = downloadsRequired (store m2) /\
    (forall q, q ∈ ps ->
     downloadsRequired (store m1) !! Playlist.id q = Some (recordFor (inventory m) q)) /\
    (forall k, k ∉ List.map Playlist.id ps -> downloadsRequired (store m1) !! k = None).
Proof.
  intros Hi Hnodup Hvalid Hall Hvalid' Hall'.
  assert (forall sched, validSchedule (length ps) sched -> allAnswered sched = true ->
          exists m', run (Settle i (Fulfilled ps) :: checkLabels i sched) m = Some m' /\
            (forall q, q ∈ ps ->
             downloadsRequired (store m') !! Playlist.id q = Some (recordFor (inventory m) q)) /\
            (forall k, k ∉ List.map Playlist.id ps ->
             downloadsRequired (store m') !! k = None)) as Hone.
  { intros sched Hv Ha. destruct ps as [|p ps].
    - apply validSchedule_0 in Hv as ->. cbn [checkLabels List.map run step].
      unfold settle. rewrite Hi. eexists. split; [reflexivity|].
      rewrite store_sendListRequestResume. split; [intros q Hq; by apply elem_of_nil in Hq|].
      intros k _. apply lookup_empty.
    - destruct (refresh_run i p ps sched m Hi Hv)
        as (m1 & m' & Hstep & Hstore & Hinv & _ & Hi1 & Hrun & _).
      destruct (checks_run_records i sched (p :: ps) false m1)
        as (m'' & Hrun' & _ & _ & _ & _ & _ & _ & _ & Hans); try done.
      assert (m'' = m') as -> by congruence.
      destruct (Hans Ha) as (_ & _ & Hother & Hrecords).
      exists m'. cbn [run]. rewrite Hstep. split; [exact Hrun|]. split.
      + intros q Hq. rewrite <- Hinv. by apply Hrecords.
      + intros k Hk. rewrite (Hother k Hk), Hstore. apply lookup_empty. }
  destruct (Hone schedule Hvalid Hall) as (m1 & Hrun1 & Hrec1 & Hnone1).
  destruct (Hone schedule' Hvalid' Hall') as (m2 & Hrun2 & Hrec2 & Hnone2).
  exists m1, m2. split; [done|]. split; [done|]. split; [|done].
  apply map_eq. intros k.
  destruct (decide (k ∈ List.map Playlist.id ps)) as [Hin|Hnot].
  - apply elem_of_List_map in Hin as (q & Hq & ->). by rewrite Hrec1, Hrec2.
  - by rewrite Hnone1, Hnone2.
Qed.

Lemma records_do_not_depend_on_order_witness :
  awaiting (sendListRequest (initialMachine sampleInventory)) !! 0 = Some AwaitList /\
  NoDup (List.map Playlist.id [playlist1v1; playlist2v2]) /\
  validSchedule 2 [(0, true); (0, true)] /\ validSchedule 2 [(1, true); (0, true)] /\
  exists m1 m2,
    run (Settle 0 (Fulfilled [playlist1v1; playlist2v2]) :: checkLabels 0 [(0, true); (0, true)])
        (sendListRequest (initialMachine sampleInventory)) = Some m1 /\
    run (Settle 0 (Fulfilled [playlist1v1; playlist2v2]) :: checkLabels 0 [(1, true); (0, true)])
        (sendListRequest (initialMachine sampleInventory)) = Some m2 /\
    downloadsRequired (store m1) = downloadsRequired (store m2).
Proof.
  assert (NoDup (List.map Playlist.id [playlist1v1; playlist2v2])) as Hnodup.
  { simpl. apply NoDup_cons. split.
    - rewrite elem_of_cons, elem_of_nil. intros [Heq|[]]. discriminate Heq.
    - apply NoDup_cons. split; [apply not_elem_of_nil|apply NoDup_nil_2]. }
  split; [reflexivity|]. split; [exact Hnodup|].
  split; [simpl; lia|]. split; [simpl; lia|].
  destruct (records_do_not_depend_on_order 0 [playlist1v1; playlist2v2]
              [(0, true); (0, true)] [(1, true); (0, true)]
              (sendListRequest (initialMachine sampleInventory)))
    as (m1 & m2 & Hrun1 & Hrun2 & Heq & _); try done; try (simpl; lia).
  by exists m1, m2.
Defined.

(** X13: after a refresh of a non-empty list in which every query was
    answered, the selected queue has a readiness record, so that the queue
    command goes through: it asks the server for the selected queue and sets
    the status to [JoinRequested]. *)
Theorem queue_command_after_refresh (i : nat) (ps : list Playlist.t)
    (schedule : list (nat * bool)) (m : Machine) :
  awaiting m !! i = Some AwaitList ->
  ps <> [] ->
  validSchedule (length ps) schedule -> allAnswered schedule = true ->
  exists m',
    run (Settle i (Fulfilled ps) :: checkLabels i schedule) m = Some m' /\
    selectedQueue (store m') ∈ List.map Playlist.id ps /\
    is_Some (downloadsRequired (store m') !! selectedQueue (store m')) /\
    status (store (sendQueueRequest m')) = JoinRequested /\
    calls (sendQueueRequest m')
    = calls m' ++ [SetInterval; Request (MatchmakingQueue [selectedQueue (store m')])].
Proof.
  intros Hi Hne Hvalid Hall. destruct ps as [|p ps]; [done|].
  destruct (refresh_run i p ps schedule m Hi Hvalid)
    as (m1 & m' & Hstep & Hstore & _ & _ & Hi1 & Hrun & _).
  destruct (checks_run_records i schedule (p :: ps) false m1)
    as (m'' & Hrun' & _ & _ & Hsel & _); try done.
  destruct (checks_run i schedule (p :: ps) false m1) as (m3 & Hrun3 & _ & _ & _ & Hdom);
    try done.
  assert (m'' = m') as -> by congruence. assert (m3 = m') as -> by congruence.
  destruct (Hdom Hall) as [Hdom' _].
  assert (selectedQueue (store m') ∈ List.map Playlist.id (p :: ps)) as Hin.
  { rewrite Hsel, Hstore, selectedQueue_refreshStore. case_decide; [done|]. by left. }
  assert (is_Some (downloadsRequired (store m') !! selectedQueue (store m'))) as Hsome.
  { apply elem_of_dom. rewrite Hdom'. apply elem_of_union_r.
    unfold playlistIds. by apply elem_of_list_to_set. }
  exists m'. cbn [run]. rewrite Hstep. split; [exact Hrun|]. split; [exact Hin|].
  split; [exact Hsome|]. destruct Hsome as [record Hrecord].
  unfold sendQueueRequest. rewrite Hrecord. split; [reflexivity|].
  simpl. by rewrite <- app_assoc.
Qed.

Lemma queue_command_after_refresh_witness :
  awaiting (sendListRequest (initialMachine sampleInventory)) !! 0 = Some AwaitList /\
  [playlist2v2] <> [] /\
  validSchedule 1 [(0, true)] /\
  exists m',
    run (Settle 0 (Fulfilled [playlist2v2]) :: checkLabels 0 [(0, true)])
        (sendListRequest (initialMachine sampleInventory)) = Some m' /\
    selectedQueue (store m') ∈ List.map Playlist.id [playlist2v2] /\
    is_Some (downloadsRequired (store m') !! selectedQueue (store m')).
Proof.
  split; [reflexivity|]. split; [discriminate|]. split; [simpl; lia|].
  destruct (queue_command_after_refresh 0 [playlist2v2] [(0, true)]
              (sendListRequest (initialMachine sampleInventory)))
    as (m' & Hrun & Hin & Hsome & _); try done; try (simpl; lia).
  by exists m'.
Defined.

(** ** Timers of simulated downloads *)

Arguments simulatedProgress : simpl never.

Lemma frame_refl (m : Machine) : frame m m.
Proof. split; [done|]. split; [done|]. exists []. by rewrite app_nil_r. Qed.

Lemma frame_update (f : Store -> Store) (m m0 : Machine) :
  (forall s, downloadProgress (f s) = downloadProgress s) ->
  frame m m0 -> frame m (update f m0).
Proof. intros Hf (Hint & Hdp & Hcalls). split; [done|]. split; [|done]. simpl. by rewrite Hf. Qed.

Lemma frame_call (c : Call) (m m0 : Machine) :
  quietCall c -> frame m m0 -> frame m (call c m0).
Proof.
  intros Hc (Hint & Hdp & extra & Hcalls & Hquiet). split; [done|]. split; [done|].
  exists (extra ++ [c]). simpl. rewrite Hcalls, <- app_assoc. split; [done|].
  apply Forall_app. split; [done|]. by constructor.
Qed.

Lemma frame_set_awaiting (v : list Awaiting) (m m0 : Machine) :
  frame m m0 -> frame m (set_awaiting v m0).
Proof. done. Qed.

Lemma frame_startChecks (queues : list Playlist.t) : forall m m0 : Machine,
  frame m m0 -> frame m (foldl startChecks m0 queues).
Proof.
  induction queues as [|queue queues IH]; intros m m0 Hframe; simpl; [done|].
  apply IH. unfold startChecks. destruct (length (Playlist.maps queue) =? 0)%nat; [done|].
  apply frame_call; [|done]. by repeat split.
Qed.

Ltac frame_tac :=
  repeat first
    [ apply frame_refl
    | apply frame_set_awaiting
    | apply frame_startChecks
    | apply frame_update; [intros; first [reflexivity | apply downloadProgress_refreshStore]|]
    | apply frame_call; [by repeat split|] ].

Lemma frame_sendListRequest (m : Machine) : frame m (sendListRequest m).
Proof. unfold sendListRequest, suspend. frame_tac. Qed.

Lemma started_downloadBattleContent (battle : PrivateBattle.t) (m : Machine) :
  started m (downloadBattleContent battle m).
Proof. split; [done|]. split; [done|]. by exists []. Qed.

(** What a step does to the timers: nothing, or it starts a download, or it
    is the firing of a timer. *)
Lemma step_timers (l : Label) (m m' : Machine) :
  simulatedOnly m ->
  step l m = Some m' ->
  frame m m' \/ started m m' \/
  exists i locals, intervals m !! i = Some locals /\ intervalCallback i m = Some m'.
Proof.
  intros Hsim Hstep.
  destruct l as [pq| |rc| | | |cb| | | | |i response|i j answered|i|i type downloadInfo];
    simpl in Hstep.
  1-6: injection Hstep as <-; left; unfold onQueueUpdateEvent, onLostEvent,
         onFoundUpdateEvent, onCancelledEvent, onFoundEvent, onQueuesJoinedEvent; frame_tac.
  - injection Hstep as <-. unfold onUserSelfEvent. destruct cb as [battle|]; [|left; frame_tac].
    case_decide; [right; left; apply started_downloadBattleContent|left; frame_tac].
  - injection Hstep as <-. unfold sendQueueRequest.
    destruct (downloadsRequired (store m) !! selectedQueue (store m)).
    + right; left. split; [done|]. split; [done|].
      exists [Request (MatchmakingQueue [selectedQueue (store m)])]. simpl.
      rewrite <- app_assoc. split; [done|]. constructor; [by repeat split|constructor].
    + left. unfold sendListRequest, suspend. frame_tac.
  - injection Hstep as <-. left. unfold sendCancelRequest, suspend. frame_tac.
  - injection Hstep as <-. left. unfold sendReadyRequest, suspend. frame_tac.
  - injection Hstep as <-. left. apply frame_sendListRequest.
  - left. unfold settle in Hstep. destruct (awaiting m !! i) as [a|] eqn:Ha; [|done].
    destruct a; try done; injection Hstep as <-.
    + unfold sendQueueRequestResume, finish. destruct response; frame_tac.
    + unfold sendCancelRequestResume, finish. destruct response; frame_tac.
    + unfold sendReadyRequestResume, finish. destruct response; frame_tac.
    + destruct response as [ps|].
      * rewrite sendListRequestResume_fulfilled.
        unfold sendListRequestFinally, finish, suspendAgain. destruct ps; frame_tac.
      * unfold sendListRequestResume, sendListRequestFinally, sendListRequestCatch, finish.
        frame_tac.
    + destruct Hsim as [_ Hawait]. rewrite Forall_lookup in Hawait.
      by specialize (Hawait _ _ Ha).
  - left. unfold checksDone in Hstep. destruct (awaiting m !! i) as [a|] eqn:Ha; [|done].
    destruct a; try done. destruct (running !! j) as [queue|]; [|done].
    unfold sendListRequestFinally, sendListRequestCatch, finish, suspendAgain in Hstep.
    destruct (checkIfAnyMapsAreNeeded _ _); destruct (delete j running); destruct settled;
      injection Hstep as <-; frame_tac.
  - right; right. destruct (intervals m !! i) as [locals|] eqn:Hi.
    + by exists i, locals.
    + unfold intervalCallback in Hstep. by rewrite Hi in Hstep.
  - unfold downloadProgressEvent in Hstep. destruct (awaiting m !! i) as [a|] eqn:Ha; [|done].
    destruct a; try done. destruct Hsim as [_ Hawait]. rewrite Forall_lookup in Hawait.
    by specialize (Hawait _ _ Ha).
Qed.

Lemma simulatedProgress_add (a b : nat) :
  Nat.iter a simulatedTick (simulatedProgress b) = simulatedProgress (a + b).
Proof. unfold simulatedProgress. by rewrite Nat.iter_add. Qed.

Lemma allComplete_complete : allComplete complete = true.
Proof. reflexivity. Qed.

Lemma timersSound_step (l : Label) (m m' : Machine) :
  simulatedOnly m -> timersSound m -> step l m = Some m' -> timersSound m'.
Proof.
  intros Hsim [Hlive (k0 & Hk0 & Hstored)] Hstep.
  destruct (step_timers l m m' Hsim Hstep)
    as [(Hint & Hdp & _)|[(Hint & Hdp & _)|(i & locals & Hi & Hfire)]].
  - split; [by rewrite Hint|]. exists k0. by rewrite Hdp.
  - split.
    + rewrite Hint. apply Forall_app. split; [done|]. constructor; [|done].
      exists 0. split; [lia|done].
    + exists 0. split; [lia|]. by rewrite Hdp.
  - rewrite (intervalCallback_fires i m locals Hi) in Hfire. injection Hfire as <-.
    rewrite Forall_lookup in Hlive. destruct (Hlive i locals Hi) as (k & Hk & ->).
    change (simulatedTick (simulatedProgress k)) with (simulatedProgress (S k)).
    destruct (allComplete (simulatedProgress (S k))) eqn:Hdone.
    + split.
      * cbn. apply Forall_delete. by apply Forall_lookup.
      * exists (S k). split; [lia|done].
    + assert (k < 16) as Hlt.
      { destruct (decide (k = 16)) as [->|]; [|lia].
        rewrite simulatedProgress_17, allComplete_complete in Hdone. discriminate. }
      split.
      * cbn. apply Forall_insert; [by apply Forall_lookup|]. exists (S k). split; [lia|done].
      * exists (S k). split; [lia|done].
Qed.

Lemma count_app_quiet (c : Call) (l extra : list Call) :
  Forall quietCall extra ->
  c = SetInterval \/ c = ClearInterval \/ c = successAlert ->
  length (filter (fun x => x = c) (l ++ extra)) = length (filter (fun x => x = c) l).
Proof.
  intros Hquiet Hc. rewrite filter_app, length_app.
  assert (filter (fun x => x = c) extra = []) as ->; [|simpl; lia].
  induction Hquiet as [|x extra (H1 & H2 & H3) _ IH]; [done|].
  rewrite filter_cons_False; [done|]. intros ->. destruct Hc as [->|[->| ->]]; done.
Qed.

Lemma timersBalanced_step (l : Label) (m m' : Machine) :
  simulatedOnly m -> timersBalanced m -> step l m = Some m' -> timersBalanced m'.
Proof.
  intros Hsim [Hcreated Halerts] Hstep. unfold timersBalanced, countCall in *.
  destruct (step_timers l m m' Hsim Hstep)
    as [(Hint & _ & extra & -> & Hquiet)|[(Hint & _ & extra & -> & Hquiet)
       |(i & locals & Hi & Hfire)]].
  - rewrite Hint, (count_app_quiet SetInterval), (count_app_quiet ClearInterval),
      (count_app_quiet successAlert) by tauto. done.
  - rewrite Hint, length_app. change (SetInterval :: extra) with ([SetInterval] ++ extra).
    rewrite !app_assoc, (count_app_quiet SetInterval), (count_app_quiet ClearInterval),
      (count_app_quiet successAlert) by tauto.
    rewrite !filter_app, !length_app. simpl. split; lia.
  - rewrite (intervalCallback_fires i m locals Hi) in Hfire. injection Hfire as <-.
    pose proof (lookup_lt_Some _ _ _ Hi) as Hlt.
    destruct (allComplete (simulatedTick locals)).
    + cbn. rewrite length_delete by (by eexists).
      rewrite !filter_app, !length_app. simpl. split; lia.
    + cbn. rewrite length_insert. done.
Qed.

Lemma reachable_invariants (inv : Inventory) (ls : list Label) : forall m m' : Machine,
  simulatedOnly m /\ timersSound m /\ timersBalanced m ->
  run ls m = Some m' ->
  simulatedOnly m' /\ timersSound m' /\ timersBalanced m'.
Proof.
  induction ls as [|l ls IH]; intros m m' Hm Hrun; simpl in Hrun.
  - by injection Hrun as <-.
  - destruct (step l m) as [m1|] eqn:Hstep; [|done]. destruct Hm as (Hsim & Hsound & Hbal).
    apply (IH m1 m'); [|done]. split; [by eapply simulatedOnly_step|].
    split; [by eapply timersSound_step|by eapply timersBalanced_step].
Qed.

Lemma initial_invariants (inv : Inventory) :
  simulatedOnly (initialMachine inv) /\ timersSound (initialMachine inv) /\
  timersBalanced (initialMachine inv).
Proof.
  split; [split; constructor|]. split; [|done].
  split; [constructor|]. exists 0. split; [lia|done].
Qed.

Lemma inUnit_simulatedProgress (k : nat) : k <= 17 -> inUnit (simulatedProgress k) = true.
Proof.
  intros Hk.
  assert (forallb (fun k => inUnit (simulatedProgress k)) (seq 0 18) = true) as Hall
    by (vm_compute; reflexivity).
  rewrite forallb_forall in Hall. apply Hall, in_seq. lia.
Qed.

(** X14: in every state that the event loop reaches from the initial state,
    the three progress values of the store, and those of every live timer, lie
    between 0 and 1. *)
Theorem progress_stays_in_unit_interval (inv : Inventory) (m : Machine) :
  reachable inv m ->
  inUnit (downloadProgress (store m)) = true /\
  Forall (fun locals => inUnit locals = true) (intervals m).
Proof.
  intros [ls Hrun].
  destruct (reachable_invariants inv ls _ m (initial_invariants inv) Hrun)
    as (_ & [Hlive (k & Hk & ->)] & _).
  split; [by apply inUnit_simulatedProgress|].
  eapply Forall_impl; [exact Hlive|]. intros locals (k' & Hk' & ->).
  apply inUnit_simulatedProgress. lia.
Qed.

(** X15: in every reachable state, every timer created by a simulated download
    is either live or has been cleared, and a success alert has been raised
    for each cleared timer and for nothing else. *)
Theorem timers_are_accounted_for (inv : Inventory) (m : Machine) :
  reachable inv m ->
  countCall SetInterval m = length (intervals m) + countCall ClearInterval m /\
  countCall successAlert m = countCall ClearInterval m.
Proof.
  intros [ls Hrun].
  by destruct (reachable_invariants inv ls _ m (initial_invariants inv) Hrun) as (_ & _ & Hbal).
Qed.

Lemma progress_stays_in_unit_interval_witness :
  match run assignedTrace (initialMachine sampleInventory) with
  | Some m => reachable sampleInventory m /\ inUnit (downloadProgress (store m)) = true
  | None => False
  end.
Proof.
  destruct (run assignedTrace (initialMachine sampleInventory)) as [m|] eqn:Hrun.
  - assert (reachable sampleInventory m) as Hreach by (exists assignedTrace; exact Hrun).
    split; [exact Hreach|]. apply (progress_stays_in_unit_interval sampleInventory m Hreach).
  - vm_compute in Hrun. discriminate Hrun.
Defined.

Lemma timers_are_accounted_for_witness :
  match run (assignedTrace) (initialMachine sampleInventory) with
  | Some m =>
      reachable sampleInventory m /\
      countCall SetInterval m = length (intervals m) + countCall ClearInterval m
  | None => False
  end.
Proof.
  destruct (run (assignedTrace)
              (initialMachine sampleInventory)) as [m|] eqn:Hrun.
  - assert (reachable sampleInventory m) as Hreach
      by (exists (assignedTrace); exact Hrun).
    split; [exact Hreach|]. apply (timers_are_accounted_for sampleInventory m Hreach).
  - vm_compute in Hrun. discriminate Hrun.
Defined.

Lemma timer_completes (i k : nat) (m : Machine) :
  k <= 16 ->
  intervals m !! i = Some (simulatedProgress k) ->
  run (repeat (IntervalFires i) (17 - k)) m
  = Some (simulatedDownloadResume
            (set_intervals (delete i (intervals m))
               (call ClearInterval (update (set_downloadProgress complete) m)))).
Proof.
  intros Hk Hi. replace (17 - k) with ((16 - k) + 1) by lia.
  rewrite repeat_app, run_app.
  rewrite (run_fires (16 - k) i (simulatedProgress k) m Hi).
  2:{ intros j Hj. rewrite simulatedProgress_add. apply simulatedProgress_not_complete. lia. }
  rewrite simulatedProgress_add. replace (16 - k + k) with 16 by lia.
  cbn [repeat run step].
  erewrite (intervalCallback_fires _ _ (simulatedProgress 16)).
  2:{ destruct (16 - k) as [|n] eqn:Hn; cbn [fired intervals set_intervals].
      - assert (k = 16) as -> by lia. exact Hi.
      - apply list_lookup_insert_eq. by eapply lookup_lt_Some. }
  change (simulatedTick (simulatedProgress 16)) with (simulatedProgress 17).
  rewrite simulatedProgress_17, allComplete_complete.
  f_equal. destruct (16 - k) as [|n]; [done|].
  unfold fired, simulatedDownloadResume, call, update, set_intervals. cbn.
  by rewrite delete_insert_same.
Qed.

(** X16: in every reachable state, every live timer completes: after at most
    seventeen more firings of that timer alone it is cleared, the progress is
    at 1 for the three assets, the success alert is raised and
    [isDownloadingContent] is false, whatever other downloads are still
    running. *)
Theorem every_timer_completes (inv : Inventory) (m : Machine) (i : nat) (locals : Progress.t) :
  reachable inv m ->
  intervals m !! i = Some locals ->
  exists n m',
    1 <= n <= 17 /\
    run (repeat (IntervalFires i) n) m = Some m' /\
    intervals m' = delete i (intervals m) /\
    calls m' = calls m ++ [ClearInterval; successAlert] /\
    downloadProgress (store m') = complete /\
    isDownloadingContent (store m') = false.
Proof.
  intros [ls Hrun] Hi.
  destruct (reachable_invariants inv ls _ m (initial_invariants inv) Hrun)
    as (_ & [Hlive _] & _).
  rewrite Forall_lookup in Hlive. destruct (Hlive i locals Hi) as (k & Hk & ->).
  exists (17 - k). eexists. split; [lia|]. split; [by apply timer_completes|].
  repeat split. simpl. by rewrite <- app_assoc.
Qed.

Lemma every_timer_completes_witness :
  match run assignedTrace (initialMachine sampleInventory) with
  | Some m =>
      reachable sampleInventory m /\
      intervals m !! 0 = Some (simulatedProgress 1) /\
      exists n m',
        1 <= n <= 17 /\
        run (repeat (IntervalFires 0) n) m = Some m' /\
        intervals m' = delete 0 (intervals m) /\
        calls m' = calls m ++ [ClearInterval; successAlert] /\
        downloadProgress (store m') = complete /\
        isDownloadingContent (store m') = false
  | None => False
  end.
Proof.
  destruct (run assignedTrace (initialMachine sampleInventory)) as [m|] eqn:Hrun.
  - assert (reachable sampleInventory m) as Hreach by (exists assignedTrace; exact Hrun).
    assert (intervals m !! 0 = Some (simulatedProgress 1)) as Hi.
    { vm_compute in Hrun. injection Hrun as <-. vm_compute. reflexivity. }
    split; [exact Hreach|]. split; [exact Hi|].
    apply (every_timer_completes sampleInventory m 0 (simulatedProgress 1) Hreach Hi).
  - vm_compute in Hrun. discriminate Hrun.
Defined.

(** ** The real download branch, continued *)



(** X18: after any sequence of reports to the listener of an asset, the store
    shows for that asset the progress of the last report that bore the name of
    the battle's asset, whether higher or lower than the earlier ones, or the
    value it had if no report bore that name; the values of the two other
    assets are never touched. *)
Theorem last_report_wins (type : Asset) (battle : PrivateBattle.t)
    (reports : list DownloadInfo.t) (s : Store) :
  getProgress type (downloadProgress (reportAll type battle reports s))
  = match lastReported (assetName type battle) reports with
    | Some v => v
    | None => getProgress type (downloadProgress s)
    end /\
  forall other, other <> type ->
    getProgress other (downloadProgress (reportAll type battle reports s))
    = getProgress other (downloadProgress s).
Proof.
  split.
  - revert s. induction reports as [|report reports IH]; intros s; [done|].
    cbn [reportAll lastReported]. rewrite IH.
    destruct (lastReported (assetName type battle) reports); [done|].
    unfold createProgressListener.
    destruct (DownloadInfo.name report =? assetName type battle)%string; [|done].
    simpl. apply getProgress_setProgress.
  - intros other Hother. apply getProgress_reportAll. congruence.
Qed.

Lemma last_report_wins_witness :
  AssetEngine <> AssetMap /\
  getProgress AssetEngine
    (downloadProgress (reportAll AssetMap battleMEG [reportHalf; reportFifth] initialStore))
  = getProgress AssetEngine (downloadProgress initialStore).
Proof.
  split; [discriminate|].
  apply (last_report_wins AssetMap battleMEG [reportHalf; reportFifth] initialStore).
  discriminate.
Defined.

(** ** What the steps leave alone *)

Lemma currentBattle_step (l : Label) (m m' : Machine) :
  step l m = Some m' ->
  currentBattle (store m') = currentBattle (store m) \/
  is_Some (currentBattle (store m')).
Proof.
  intros Hstep.
  destruct l as [pq| |rc| | | |cb| | | | |i response|i j answered|i|i type downloadInfo];
    simpl in Hstep.
  1-6: injection Hstep as <-; by left.
  - injection Hstep as <-. unfold onUserSelfEvent.
    destruct cb; [|by left]. case_decide; [by right|by left].
  - injection Hstep as <-. unfold sendQueueRequest.
    destruct (downloadsRequired (store m) !! selectedQueue (store m)); [by right|by left].
  - injection Hstep as <-. by left.
  - injection Hstep as <-. by left.
  - injection Hstep as <-. by left.
  - left. unfold settle in Hstep. destruct (awaiting m !! i) as [a|] eqn:Ha; [|done].
    destruct a; try done; injection Hstep as <-.
    + by destruct response.
    + by destruct response.
    + by destruct response.
    + destruct response as [ps|]; [|done].
      rewrite store_sendListRequestResume. destruct ps as [|p ps]; [done|].
      apply currentBattle_refreshStore.
    + by destruct response, stage.
  - left. unfold checksDone in Hstep. destruct (awaiting m !! i) as [a|] eqn:Ha; [|done].
    destruct a; try done. destruct (running !! j) as [queue|]; [|done].
    destruct (checkIfAnyMapsAreNeeded _ _); destruct (delete j running); destruct settled;
      by injection Hstep as <-.
  - left. unfold intervalCallback in Hstep. destruct (intervals m !! i); [|done].
    match type of Hstep with (if ?b then _ else _) = _ => destruct b end;
      by injection Hstep as <-.
  - left. unfold downloadProgressEvent in Hstep.
    destruct (awaiting m !! i) as [a|] eqn:Ha; [|done].
    destruct a; try done. injection Hstep as <-. simpl. unfold createProgressListener.
    by destruct (_ =? _)%string.
Qed.

(** X19: the battle is never cleared: once a battle is in the store, every
    later state of every run has a battle in the store, whatever events,
    commands, rejections and completed downloads come in between. *)
Theorem currentBattle_is_never_cleared (ls : list Label) : forall m m' : Machine,
  run ls m = Some m' ->
  is_Some (currentBattle (store m)) ->
  is_Some (currentBattle (store m')).
Proof.
  induction ls as [|l ls IH]; intros m m' Hrun Hsome; simpl in Hrun.
  - by injection Hrun as <-.
  - destruct (step l m) as [m1|] eqn:Hstep; [|done].
    apply (IH m1 m' Hrun).
    destruct (currentBattle_step l m m1 Hstep) as [->|H]; done.
Qed.

Lemma currentBattle_is_never_cleared_witness :
  run [CancelledEvent; SendCancelRequest; Settle 0 Rejected]
      (downloadBattleContent battleMEG (initialMachine sampleInventory))
  = Some (sendCancelRequestResume 0 (@Rejected (list Playlist.t))
            (sendCancelRequest (onCancelledEvent
               (downloadBattleContent battleMEG (initialMachine sampleInventory))))) /\
  is_Some (currentBattle (store (sendCancelRequestResume 0 (@Rejected (list Playlist.t))
            (sendCancelRequest (onCancelledEvent
               (downloadBattleContent battleMEG (initialMachine sampleInventory))))))).
Proof.
  split; [reflexivity|].
  apply (currentBattle_is_never_cleared [CancelledEvent; SendCancelRequest; Settle 0 Rejected]
           (downloadBattleContent battleMEG (initialMachine sampleInventory))).
  - reflexivity.
  - by eexists.
Defined.

(** X20: the status is assigned only by the four status events, by the three
    session commands and by the continuations of the queue and ready
    requests: timers, playlist callbacks, list requests and their responses,
    progress events, the two counter events and [user/self] events leave it as
    it is. *)
Theorem status_changes_only_by_session_steps (l : Label) (m m' : Machine) :
  step l m = Some m' ->
  assignsStatus l m = false ->
  status (store m') = status (store m).
Proof.
  intros Hstep Hl.
  destruct l as [pq| |rc| | | |cb| | | | |i response|i j answered|i|i type downloadInfo];
    simpl in Hstep, Hl; try discriminate Hl.
  - by injection Hstep as <-.
  - by injection Hstep as <-.
  - injection Hstep as <-. unfold onUserSelfEvent. destruct cb; [|done]. by case_decide.
  - by injection Hstep as <-.
  - unfold settle in Hstep. destruct (awaiting m !! i) as [a|] eqn:Ha; [|done].
    destruct a; try done; injection Hstep as <-.
    + by destruct response.
    + destruct response as [ps|]; [|done].
      rewrite store_sendListRequestResume. destruct ps as [|p ps]; [done|].
      apply status_refreshStore.
    + by destruct response, stage.
  - unfold checksDone in Hstep. destruct (awaiting m !! i) as [a|] eqn:Ha; [|done].
    destruct a; try done. destruct (running !! j) as [queue|]; [|done].
    destruct (checkIfAnyMapsAreNeeded _ _); destruct (delete j running); destruct settled;
      by injection Hstep as <-.
  - unfold intervalCallback in Hstep. destruct (intervals m !! i); [|done].
    match type of Hstep with (if ?b then _ else _) = _ => destruct b end;
      by injection Hstep as <-.
  - unfold downloadProgressEvent in Hstep.
    destruct (awaiting m !! i) as [a|] eqn:Ha; [|done].
    destruct a; try done. injection Hstep as <-. simpl. unfold createProgressListener.
    by destruct (_ =? _)%string.
Qed.

Lemma status_changes_only_by_session_steps_witness :
  step (IntervalFires 0)
       (update (set_status MatchAccepted)
          (downloadBattleContent battleMEG (initialMachine sampleInventory)))
  = intervalCallback 0
      (update (set_status MatchAccepted)
         (downloadBattleContent battleMEG (initialMachine sampleInventory))) /\
  match intervalCallback 0
          (update (set_status MatchAccepted)
             (downloadBattleContent battleMEG (initialMachine sampleInventory))) with
  | Some m' => status (store m') = MatchAccepted
  | None => False
  end.
Proof.
  split; [reflexivity|].
  destruct (intervalCallback 0
              (update (set_status MatchAccepted)
                 (downloadBattleContent battleMEG (initialMachine sampleInventory))))
    as [m'|] eqn:Hstep.
  - apply (status_changes_only_by_session_steps (IntervalFires 0)
             (update (set_status MatchAccepted)
                (downloadBattleContent battleMEG (initialMachine sampleInventory))) m').
    + exact Hstep.
    + reflexivity.
  - vm_compute in Hstep. discriminate Hstep.
Defined.

(** ** Initialisation *)

(** X21: [initializeMatchmakingStore] does nothing once [isInitialized] is
    true. While the server is not connected it registers its seven handlers,
    sets the flag at once and sends nothing, so that a second call does
    nothing. While connected it registers the handlers and requests the list,
    but sets the flag only when that request has been dealt with: a second
    call made before then registers the handlers and requests the list a
    second time. *)
Theorem initialization_guard (m : Machine) (isConnected : bool) :
  (isInitialized (store m) = true -> initializeMatchmakingStore isConnected m = ([], m)) /\
  (isInitialized (store m) = false ->
   fst (initializeMatchmakingStore false m) = registeredEvents /\
   calls (snd (initializeMatchmakingStore false m)) = calls m /\
   awaiting (snd (initializeMatchmakingStore false m)) = awaiting m /\
   initializeMatchmakingStore isConnected (snd (initializeMatchmakingStore false m))
   = ([], snd (initializeMatchmakingStore false m))) /\
  (isInitialized (store m) = false ->
   fst (initializeMatchmakingStore true m) = registeredEvents /\
   isInitialized (store (snd (initializeMatchmakingStore true m))) = false /\
   fst (initializeMatchmakingStore true (snd (initializeMatchmakingStore true m)))
   = registeredEvents /\
   calls (snd (initializeMatchmakingStore true (snd (initializeMatchmakingStore true m))))
   = calls m ++ [Request MatchmakingList; Request MatchmakingList] /\
   awaiting (snd (initializeMatchmakingStore true (snd (initializeMatchmakingStore true m))))
   = awaiting m ++ [AwaitList; AwaitList] /\
   isInitialized (store (initializeMatchmakingStoreResume
                           (snd (initializeMatchmakingStore true m)))) = true).
Proof.
  unfold initializeMatchmakingStore. split; [|split].
  - by intros ->.
  - intros ->. by repeat split.
  - intros Hinit. rewrite Hinit. cbn [fst snd sendListRequest store update suspend call
      set_awaiting set_queueError set_isLoadingQueues isInitialized].
    rewrite Hinit. cbn. rewrite <- !app_assoc. by repeat split.
Qed.

Lemma initialization_guard_witness :
  isInitialized (store (initialMachine sampleInventory)) = false /\
  fst (initializeMatchmakingStore true (initialMachine sampleInventory)) = registeredEvents /\
  isInitialized (store (snd (initializeMatchmakingStore true (initialMachine sampleInventory))))
  = false.
Proof.
  split; [reflexivity|].
  destruct (initialization_guard (initialMachine sampleInventory) true)
    as (_ & _ & Hconnected).
  destruct (Hconnected eq_refl) as (Hevents & Hflag & _). by split.
Defined.

(** ** Refreshes that overlap or fail *)

(** X22: a callback of an earlier refresh that finishes after the list of a
    later refresh has arrived writes its record into the map of the later
    refresh: the store then holds the playlists of the later list together
    with a record for a playlist of the earlier one, whether or not the later
    list has a playlist with that id. *)
Theorem late_callback_writes_into_new_map (i i' j : nat) (running : list Playlist.t)
    (settled : bool) (queue : Playlist.t) (ps : list Playlist.t) (m : Machine) :
  i <> i' ->
  awaiting m !! i = Some (AwaitChecks running settled) ->
  awaiting m !! i' = Some AwaitList ->
  running !! j = Some queue ->
  ps <> [] ->
  exists m',
    run [Settle i' (Fulfilled ps); ChecksDone i j true] m = Some m' /\
    playlists (store m') = ps /\
    downloadsRequired (store m') = {[ Playlist.id queue := recordFor (inventory m) queue ]}.
Proof.
  intros Hne Hi Hi' Hj Hps. destruct ps as [|p ps]; [done|].
  destruct (refresh_run i' p ps (repeat (0, true) (length (p :: ps))) m Hi')
    as (m1 & _ & Hstep & Hstore & Hinv & _ & _).
  { generalize (length (p :: ps)). intros n. induction n as [|n IH]; simpl; [done|].
    split; [lia|done]. }
  assert (awaiting m1 !! i = Some (AwaitChecks running settled)) as Hi1.
  { assert (m1 = sendListRequestResume i' (Fulfilled (p :: ps)) m) as ->
      by (cbn [step] in Hstep; unfold settle in Hstep; rewrite Hi' in Hstep; congruence).
    rewrite sendListRequestResume_fulfilled. cbn [awaiting suspendAgain set_awaiting].
    destruct (store_foldl_startChecks (p :: ps) (update (refreshStore (p :: ps)) m))
      as (_ & -> & _).
    cbn [awaiting update]. by rewrite list_lookup_insert_ne. }
  cbn [run]. rewrite Hstep. cbn [step].
  rewrite (checksDone_answered i j running settled queue m1 Hi1 Hj). cbn zeta.
  eexists. split; [reflexivity|]. rewrite Hinv.
  assert (downloadsRequired (refreshStore (p :: ps) (store m)) = ∅) as Hempty by done.
  destruct (delete j running), settled; cbn; rewrite Hstore, playlists_refreshStore, Hempty;
    by rewrite insert_empty.
Qed.

Lemma late_callback_writes_into_new_map_witness :
  match run [SendListRequest; SendListRequest; Settle 0 (Fulfilled [playlist1v1])]
            (initialMachine sampleInventory) with
  | Some m =>
      0 <> 1 /\
      awaiting m !! 0 = Some (AwaitChecks [playlist1v1] false) /\
      awaiting m !! 1 = Some AwaitList /\
      exists m',
        run [Settle 1 (Fulfilled [playlist2v2]); ChecksDone 0 0 true] m = Some m' /\
        playlists (store m') = [playlist2v2] /\
        downloadsRequired (store m') = {[ "1v1" := recordFor (inventory m) playlist1v1 ]}
  | None => False
  end.
Proof.
  destruct (run [SendListRequest; SendListRequest; Settle 0 (Fulfilled [playlist1v1])]
              (initialMachine sampleInventory)) as [m|] eqn:Hrun.
  - assert (awaiting m !! 0 = Some (AwaitChecks [playlist1v1] false) /\
            awaiting m !! 1 = Some AwaitList) as [H0 H1].
    { vm_compute in Hrun. injection Hrun as <-. by split. }
    split; [lia|]. split; [exact H0|]. split; [exact H1|].
    apply (late_callback_writes_into_new_map 0 1 0 [playlist1v1] false playlist1v1
             [playlist2v2] m); [lia|exact H0|exact H1|reflexivity|discriminate].
  - vm_compute in Hrun. discriminate Hrun.
Defined.

Lemma checksDone_reports (i j : nat) (answered : bool) (running : list Playlist.t)
    (settled : bool) (queue : Playlist.t) (m : Machine) :
  awaiting m !! i = Some (AwaitChecks running settled) ->
  running !! j = Some queue ->
  exists m0 settled',
    checksDone i j answered m
    = Some (match delete j running with
            | [] => finish i m0
            | rest => suspendAgain i (AwaitChecks rest settled') m0
            end) /\
    awaiting m0 = awaiting m /\
    ((calls m0 = calls m /\ queueError (store m0) = queueError (store m) /\
      (settled = true -> settled' = true)) \/
     (settled = false /\ settled' = true /\ calls m0 = calls m ++ [listAlert] /\
      queueError (store m0) = Some "Failed to retrieve available queues")).
Proof.
  intros Hi Hj.
  destruct (decide (answered = true \/ Playlist.maps queue = [])) as [Hwritten|Hfailed].
  - assert (checksDone i j answered m = checksDone i j true m) as ->.
    { destruct Hwritten as [->|Hnomaps]; [done|].
      unfold checksDone. rewrite Hi, Hj. unfold checkIfAnyMapsAreNeeded. by rewrite Hnomaps. }
    rewrite (checksDone_answered i j running settled queue m Hi Hj). cbn zeta.
    set (m1 := update _ m).
    exists (match delete j running with
            | [] => if settled then m1 else sendListRequestFinally m1
            | _ => m1
            end), settled.
    split; [by destruct (delete j running)|].
    destruct (delete j running) as [|q rest], settled; cbn; (split; [done|]); by left.
  - assert (answered = false) as ->
      by (destruct answered; [exfalso; apply Hfailed; by left|done]).
    assert (Playlist.maps queue <> []) as Hmaps by (intros H; apply Hfailed; by right).
    rewrite (checksDone_failed i j running settled queue m Hi Hj Hmaps). cbn zeta.
    exists (if settled then m else sendListRequestFinally (sendListRequestCatch m)), true.
    split; [by destruct (delete j running)|].
    destruct settled; cbn; (split; [done|]); [by left|by right].
Qed.

Lemma checks_run_reports (i : nat) (schedule : list (nat * bool)) :
  forall (running : list Playlist.t) (settled : bool) (m : Machine),
  running <> [] ->
  awaiting m !! i = Some (AwaitChecks running settled) ->
  validSchedule (length running) schedule ->
  exists m',
    run (checkLabels i schedule) m = Some m' /\
    ((calls m' = calls m /\ queueError (store m') = queueError (store m)) \/
     (settled = false /\ calls m' = calls m ++ [listAlert] /\
      queueError (store m') = Some "Failed to retrieve available queues")).
Proof.
  induction schedule as [|[j answered] schedule IH]; intros running settled m Hne Hi Hvalid.
  { simpl in Hvalid. by destruct running. }
  destruct Hvalid as [Hj Hvalid].
  destruct (lookup_lt_is_Some_2 running j Hj) as [queue Hqueue].
  pose proof (lookup_lt_Some _ _ _ Hi) as Hlt.
  assert (length (delete j running) = pred (length running)) as Hlen.
  { rewrite length_delete by (by eexists). lia. }
  destruct (checksDone_reports i j answered running settled queue m Hi Hqueue)
    as (m0 & settled' & Hstep & Haw & Hreport).
  cbn [checkLabels List.map run step fst snd]. rewrite Hstep.
  destruct (delete j running) as [|q0 rest] eqn:Hrest.
  - simpl in Hlen. rewrite <- Hlen in Hvalid. apply validSchedule_0 in Hvalid as ->.
    eexists. split; [reflexivity|]. cbn [finish store calls set_awaiting].
    destruct Hreport as [(Hc & Hq & _)|(Hs & _ & Hc & Hq)]; [by left|by right].
  - set (m1 := suspendAgain i (AwaitChecks (q0 :: rest) settled') m0).
    destruct (IH (q0 :: rest) settled' m1) as (m' & Hrun & Hreport').
    + done.
    + subst m1. simpl. rewrite Haw. by apply list_lookup_insert_eq.
    + by rewrite Hlen.
    + exists m'. split; [exact Hrun|]. subst m1.
      cbn [suspendAgain store calls set_awaiting] in Hreport'.
      destruct Hreport as [(Hc & Hq & Hs)|(Hs & Hs' & Hc & Hq)];
        destruct Hreport' as [(Hc' & Hq')|(Hs'' & Hc' & Hq')].
      * left. split; congruence.
      * right. split; [|split; [congruence|done]].
        destruct settled; [|done]. rewrite Hs in Hs''; done.
      * right. split; [done|]. split; congruence.
      * congruence.
Qed.

Lemma calls_foldl_startChecks (queues : list Playlist.t) : forall m : Machine,
  exists queries,
    calls (foldl startChecks m queues) = calls m ++ queries /\ Forall isBulkGet queries.
Proof.
  induction queues as [|queue queues IH]; intros m; simpl.
  - exists []. by rewrite app_nil_r.
  - destruct (IH (startChecks m queue)) as (queries & -> & Hqueries).
    unfold startChecks. destruct (length (Playlist.maps queue) =? 0)%nat.
    + by exists queries.
    + eexists (_ :: queries). simpl. rewrite <- app_assoc. split; [done|].
      constructor; [by eexists|done].
Qed.

(** X23: a refresh reports at most one error, however many of its queries
    fail: apart from the database queries it makes when the list arrives, it
    either makes no call and leaves [queueError] as it was, or raises the
    error alert once and stores the queue error. *)
Theorem refresh_reports_at_most_one_error (i : nat) (ps : list Playlist.t)
    (schedule : list (nat * bool)) (m : Machine) :
  awaiting m !! i = Some AwaitList ->
  validSchedule (length ps) schedule ->
  exists m' queries,
    run (Settle i (Fulfilled ps) :: checkLabels i schedule) m = Some m' /\
    Forall isBulkGet queries /\
    ((calls m' = calls m ++ queries /\ queueError (store m') = queueError (store m)) \/
     (calls m' = calls m ++ queries ++ [listAlert] /\
      queueError (store m') = Some "Failed to retrieve available queues")).
Proof.
  intros Hi Hvalid. destruct ps as [|p ps].
  - apply validSchedule_0 in Hvalid as ->. cbn [checkLabels List.map run step].
    unfold settle. rewrite Hi. eexists _, []. split; [reflexivity|]. split; [constructor|].
    left. by rewrite app_nil_r.
  - destruct (refresh_run i p ps schedule m Hi Hvalid)
      as (m1 & m' & Hstep & Hstore & _ & _ & Hi1 & Hrun & _).
    destruct (checks_run_reports i schedule (p :: ps) false m1) as (m'' & Hrun' & Hreport);
      try done.
    assert (m'' = m') as -> by congruence.
    assert (exists queries, calls m1 = calls m ++ queries /\ Forall isBulkGet queries)
      as (queries & Hcalls & Hqueries).
    { assert (m1 = sendListRequestResume i (Fulfilled (p :: ps)) m) as ->
        by (cbn [step] in Hstep; unfold settle in Hstep; rewrite Hi in Hstep; congruence).
      rewrite sendListRequestResume_fulfilled. cbn [calls suspendAgain set_awaiting].
      apply (calls_foldl_startChecks (p :: ps) (update (refreshStore (p :: ps)) m)). }
    exists m', queries. cbn [run]. rewrite Hstep. split; [exact Hrun|]. split; [done|].
    rewrite Hstore, queueError_refreshStore, Hcalls in Hreport.
    destruct Hreport as [(Hc & Hq)|(_ & Hc & Hq)]; [by left|right].
    by rewrite Hc, <- app_assoc.
Qed.

Lemma refresh_reports_at_most_one_error_witness :
  awaiting (sendListRequest (initialMachine sampleInventory)) !! 0 = Some AwaitList /\
  validSchedule (length [playlist1v1; playlist2v2]) [(1, false); (0, false)] /\
  exists m' queries,
    run (Settle 0 (Fulfilled [playlist1v1; playlist2v2]) :: checkLabels 0 [(1, false); (0, false)])
        (sendListRequest (initialMachine sampleInventory)) = Some m' /\
    Forall isBulkGet queries /\
    ((calls m' = calls (sendListRequest (initialMachine sampleInventory)) ++ queries /\
      queueError (store m') = queueError (store (sendListRequest (initialMachine sampleInventory)))) \/
     (calls m' = calls (sendListRequest (initialMachine sampleInventory)) ++ queries ++ [listAlert] /\
      queueError (store m') = Some "Failed to retrieve available queues")).
Proof.
  split; [reflexivity|]. split; [simpl; lia|].
  apply (refresh_reports_at_most_one_error 0 [playlist1v1; playlist2v2] [(1, false); (0, false)]
           (sendListRequest (initialMachine sampleInventory))).
  - reflexivity.
  - simpl. lia.
Defined.
